(** * A shallow embedding of the Twitch chat-bot backend (src/index.js)

    The development follows the layout of the source file: JavaScript
    primitives the code relies on, the retry/backoff wrapper [withRetry],
    the timeout race [withTimeout], their composition [callOpenAIChat],
    the output trimming [trimForTwitch] and the [/gpt/:text] route with its
    shared [messages] array.

    Conventions.
    - JavaScript numbers that the code only uses as integers (HTTP status
      codes, counters, millisecond budgets) are values of [Z]; the draw of
      [Math.random()] is a rational of [Q] in the interval [0, 1).
    - JavaScript strings are values of [string]; [length] counts their
      units.
    - An optional property ([err?.status], [err?.code], ...) is an [option].
    - Time is a virtual clock in milliseconds.  The timer of the timeout
      race, armed with [setTimeout(f, ms)] at time [t], fires at [t + ms]
      when [ms] is between 1 and 2147483647; with any other [ms] the
      platform arms it for 1 millisecond ([Timeout.timer_delay]).  A pause
      [sleep(delay)] between two attempts lasts [delay] milliseconds, as it
      does for the delays in that range, which those computed from a base
      of 400 and a factor of 2 are up to the 23rd retry.
    - The upstream service is an oracle: for every call and every invocation
      within it, when the invocation settles and with what. *)

From Stdlib Require Import ZArith QArith Qround List String Ascii Bool Lia Lqa.
From Stdlib Require Import DecimalString.
Import ListNotations.

Open Scope string_scope.
Open Scope list_scope.
Open Scope Z_scope.

(** ** JavaScript primitives *)

Module Js.

(** Truthiness of an optional number: [undefined] and [0] are falsy. *)
Definition truthy_num (v : option Z) : bool :=
  match v with
  | Some n => negb (n =? 0)
  | None => false
  end.

(** Truthiness of an optional string: [undefined] and [''] are falsy. *)
Definition truthy_str (v : option string) : bool :=
  match v with
  | Some s => negb (String.eqb s "")
  | None => false
  end.

(** [a || b] on optional numbers. *)
Definition or_num (a b : option Z) : option Z :=
  if truthy_num a then a else b.

(** [a || b] on optional strings. *)
Definition or_str (a b : option string) : option string :=
  if truthy_str a then a else b.

(** [Math.round]: the nearest integer, halves rounded up. *)
Definition Math_round (x : Q) : Z := Qfloor (x + (1 # 2)).

(** [Math.pow] on an integer base and a non-negative integer exponent. *)
Definition Math_pow (b e : Z) : Z := b ^ e.

(** The text of an integer inside a template literal. *)
Definition show (n : Z) : string := NilZero.string_of_int (Z.to_int n).

(** The text of an optional number inside a template literal. *)
Definition show_opt (v : option Z) : string :=
  match v with
  | Some n => show n
  | None => "undefined"
  end.

(** [new Set(xs).has(v)] and [xs.includes(v)] for an optional number. *)
Definition has_num (xs : list Z) (v : option Z) : bool :=
  match v with
  | Some n => existsb (Z.eqb n) xs
  | None => false
  end.

(** [new Set(xs).has(v)] for an optional string. *)
Definition has_str (xs : list string) (v : option string) : bool :=
  match v with
  | Some s => existsb (String.eqb s) xs
  | None => false
  end.

End Js.

(** ** Errors thrown by the upstream client *)

(** [err.response], when the error carries one. *)
Record http_response := mkResponse {
  resp_status : option Z;      (* err.response.status *)
  resp_data : option string    (* JSON.stringify(err.response.data) when that
                                  property is truthy *)
}.

Record error := mkError {
  err_status : option Z;               (* err.status *)
  err_response : option http_response; (* err.response *)
  err_code : option string;            (* err.code *)
  err_message : option string          (* err.message *)
}.

(** [err?.status || err?.response?.status] *)
Definition status_of (err : error) : option Z :=
  Js.or_num (err_status err)
            (match err_response err with
             | Some r => resp_status r
             | None => None
             end).

(** [err?.code] *)
Definition code_of (err : error) : option string := err_code err.

(** A promise settles with a value or with an error. *)
Inductive outcome (A : Type) : Type :=
| Resolved (v : A)
| Rejected (e : error).
Arguments Resolved {A} v.
Arguments Rejected {A} e.

(** One invocation of an asynchronous operation: it settles [after]
    milliseconds, or it never settles. *)
Inductive settle (A : Type) : Type :=
| Settles (after : Z) (o : outcome A)
| Never.
Arguments Settles {A} after o.
Arguments Never {A}.

(** A zero-argument asynchronous operation [fn]: what its [k]-th invocation
    (counted from 0) does. *)
Definition operation (A : Type) : Type := nat -> settle A.

(** A promise as seen on the virtual clock. *)
Inductive promise (A : Type) : Type :=
| Settled (at_ms : Z) (o : outcome A)
| Pending.
Arguments Settled {A} at_ms o.
Arguments Pending {A}.

(** ** withRetry *)

Module Retry.

Definition retriableStatuses : list Z :=
  [408; 409; 425; 429; 500; 502; 503; 504].

Definition retriableCodes : list string :=
  ["ECONNRESET"; "EPIPE"; "UND_ERR_CONNECT_TIMEOUT"; "UND_ERR_HEADERS_TIMEOUT";
   "UND_ERR_BODY_TIMEOUT"; "ETIMEDOUT"; "ESOCKETTIMEDOUT"].

(** [retriableStatuses.has(status) || retriableCodes.has(code)] *)
Definition retriable (err : error) : bool :=
  Js.has_num retriableStatuses (status_of err)
  || Js.has_str retriableCodes (code_of err).

(** The options object of [withRetry]; [onRetry] is the event log below. *)
Record options := mkOptions {
  retries : Z;
  baseDelay : Z;
  factor : Z
}.

Definition defaults : options :=
  {| retries := 3; baseDelay := 400; factor := 2 |}.

(** [baseDelay * Math.pow(factor, attempt - 1)] *)
Definition backoff (o : options) (attempt : nat) : Z :=
  baseDelay o * Js.Math_pow (factor o) (Z.of_nat attempt - 1).

(** [Math.round(baseDelay * Math.pow(factor, attempt - 1) + Math.random() * 200)],
    [random] being the draw of [Math.random()]. *)
Definition delay_of (o : options) (attempt : nat) (random : Q) : Z :=
  Js.Math_round (inject_Z (backoff o attempt) + random * 200)%Q.

(** The argument handed to [onRetry]. *)
Record retry_event := mkEvent {
  ev_attempt : nat;
  ev_status : option Z;
  ev_code : option string;
  ev_delay : Z;
  ev_message : option string
}.

(** The loop state: [attempt] is the source's counter of failed attempts,
    [clock] the virtual time, [calls] the number of invocations of [fn] so
    far, [events] the [onRetry] notifications (oldest first), which also
    counts the draws of [Math.random()]. *)
Record state := mkState {
  attempt : nat;
  clock : Z;
  calls : nat;
  events : list retry_event
}.

Definition init (start : Z) : state :=
  {| attempt := 0; clock := start; calls := 0; events := [] |}.

(** What the decision in the [catch] block is. *)
Inductive decision : Type :=
| Rethrow
| RetryAfter (delay : Z).

(** [if (!retriable || attempt > retries) throw err; ... delay ...] with
    [attempt] already incremented. *)
Definition decide (o : options) (attempt : nat) (err : error) (random : Q)
  : decision :=
  if negb (retriable err) || (Z.of_nat attempt >? retries o)
  then Rethrow
  else RetryAfter (delay_of o attempt random).

(** The body of [for (;;)], unrolled [fuel] times.  [None] means that the
    unrolling was too short. *)
Fixpoint loop {A} (fuel : nat) (fn : operation A) (rnd : nat -> Q)
         (o : options) (st : state) : option (promise A * state) :=
  match fuel with
  | O => None
  | S fuel' =>
      match fn (calls st) with
      | Never =>
          Some (Pending,
                {| attempt := attempt st; clock := clock st;
                   calls := S (calls st); events := events st |})
      | Settles d (Resolved v) =>
          Some (Settled (clock st + d) (Resolved v),
                {| attempt := attempt st; clock := clock st + d;
                   calls := S (calls st); events := events st |})
      | Settles d (Rejected err) =>
          let attempt' := S (attempt st) in
          match decide o attempt' err (rnd (List.length (events st))) with
          | Rethrow =>
              Some (Settled (clock st + d) (Rejected err),
                    {| attempt := attempt'; clock := clock st + d;
                       calls := S (calls st); events := events st |})
          | RetryAfter delay =>
              loop fuel' fn rnd o
                   {| attempt := attempt';
                      clock := clock st + d + delay;
                      calls := S (calls st);
                      events := events st ++
                                [ {| ev_attempt := attempt';
                                     ev_status := status_of err;
                                     ev_code := code_of err;
                                     ev_delay := delay;
                                     ev_message := err_message err |} ] |}
          end
      end
  end.

(** Unrolling [retries + 1] times is always enough (lemma [loop_total]). *)
Definition enough (o : options) : nat := S (Z.to_nat (retries o)).

(** [withRetry(fn, { retries, baseDelay, factor, onRetry })] started at
    time [start]. *)
Definition withRetry {A} (fn : operation A) (rnd : nat -> Q) (o : options)
           (start : Z) : option (promise A * state) :=
  loop (enough o) fn rnd o (init start).

(** The time taken by the first [n] invocations of [fn]. *)
Fixpoint time_spent {A} (fn : operation A) (n : nat) : Z :=
  match n with
  | O => 0
  | S k =>
      time_spent fn k + match fn k with
                        | Settles d _ => d
                        | Never => 0
                        end
  end.

(** The time slept between the attempts, read off the [onRetry] events. *)
Definition time_slept (evs : list retry_event) : Z :=
  fold_right (fun e acc => ev_delay e + acc) 0 evs.

(** What a finished loop has done: its last invocation of [fn] settles the
    promise, and an error is rethrown only if it is not retriable or the
    budget is spent. *)
Definition last_call_settles {A} (fn : operation A) (o : options)
           (p : promise A) (st' : state) : Prop :=
  match fn (pred (calls st')) with
  | Never => p = Pending
  | Settles d (Resolved v) => p = Settled (clock st') (Resolved v)
  | Settles d (Rejected e) =>
      p = Settled (clock st') (Rejected e)
      /\ (retriable e = false \/ retries o < Z.of_nat (attempt st'))
  end.

(** [attempt] counts the failed invocations. *)
Definition failures_counted {A} (p : promise A) (st st' : state) : Prop :=
  match p with
  | Settled _ (Rejected _) =>
      (attempt st' + calls st = attempt st + calls st')%nat
  | _ => (S (attempt st') + calls st = attempt st + calls st')%nat
  end.

End Retry.

(** ** withTimeout *)

Module Timeout.

(** The timers armed by [setTimeout] and not yet fired or cleared. *)
Record timers := mkTimers {
  next_handle : nat;
  armed : list nat
}.

Definition no_timers : timers := {| next_handle := 0; armed := [] |}.

(** The longest delay [setTimeout] honours, [2^31 - 1]. *)
Definition TIMEOUT_MAX : Z := 2147483647.

(** The delay [setTimeout(f, ms)] arms its timer with: [ms] itself from 1 to
    [TIMEOUT_MAX], and 1 for any other value. *)
Definition timer_delay (ms : Z) : Z :=
  if (1 <=? ms) && (ms <=? TIMEOUT_MAX) then ms else 1.

(** [timer = setTimeout(..., ms)], for its effect on the table of timers. *)
Definition setTimeout (tm : timers) : nat * timers :=
  (next_handle tm,
   {| next_handle := S (next_handle tm);
      armed := next_handle tm :: armed tm |}).

Definition drop (h : nat) (hs : list nat) : list nat :=
  filter (fun x => negb (Nat.eqb x h)) hs.

(** [clearTimeout(timer)]; without effect on a timer that is not armed. *)
Definition clearTimeout (h : nat) (tm : timers) : timers :=
  {| next_handle := next_handle tm; armed := drop h (armed tm) |}.

(** A timer that fires is not armed any more. *)
Definition fire (h : nat) (tm : timers) : timers :=
  {| next_handle := next_handle tm; armed := drop h (armed tm) |}.

(** [new Error(`Client timeout after ${ms}ms`)] *)
Definition clientTimeout (ms : Z) : error :=
  {| err_status := None;
     err_response := None;
     err_code := None;
     err_message := Some ("Client timeout after " ++ Js.show ms ++ "ms")%string |}.

(** Who settles [Promise.race([promise, timeoutPromise])]. *)
Inductive winner : Type :=
| OperationWins
| TimerWins.

(** The race at the deadline: the operation wins when it settles strictly
    earlier, the timer when the operation is strictly later or never
    settles; [tie] says who wins when both fall on the same millisecond. *)
Definition race {A} (p : promise A) (deadline : Z) (tie : winner) : winner :=
  match p with
  | Pending => TimerWins
  | Settled t _ =>
      if t <? deadline then OperationWins
      else if deadline <? t then TimerWins
      else tie
  end.

(** [withTimeout(promise, ms)] called at time [start]: the time and outcome
    of the returned promise, and the timers left armed.  The timer fires
    [timer_delay ms] after [start]; the error it rejects with names [ms]. *)
Definition withTimeout {A} (p : promise A) (ms : Z) (start : Z) (tie : winner)
           (tm : timers) : (Z * outcome A) * timers :=
  let (timer, tm1) := setTimeout tm in
  let deadline := start + timer_delay ms in
  match p with
  | Settled t o =>
      match race p deadline tie with
      | OperationWins => ((t, o), clearTimeout timer tm1)
      | TimerWins =>
          ((deadline, Rejected (clientTimeout ms)),
           clearTimeout timer (fire timer tm1))
      end
  | Pending =>
      ((deadline, Rejected (clientTimeout ms)),
       clearTimeout timer (fire timer tm1))
  end.

End Timeout.

(** ** The conversation and the upstream completion call *)

Inductive role : Type := system | user | assistant.

Record exchange := mkExchange {
  ex_role : role;
  content : string
}.

(** The arguments of [openai.chat.completions.create]; [top_p],
    [frequency_penalty] and [presence_penalty] are constants.  [msgArray]
    holds the contents of the array passed as they are when
    [callOpenAIChat] is called.  In multi-turn mode that array is the shared
    [messages] array itself, which every invocation of [create] reads
    anew: an invocation made after [messages] has changed, as in a retry
    loop that a client timeout has left running, sends the contents it then
    finds. *)
Record request := mkRequest {
  model : string;
  msgArray : list exchange;
  temperature : Q;
  maxTokens : Z
}.

(** The part of a completion the route reads:
    [response?.choices?.[0]?.message?.content]. *)
Record completion := mkCompletion {
  first_content : option string
}.

(** The environment of one run.  For the [i]-th call of [callOpenAIChat]
    (counted from 0): what each invocation of [create] made by that call
    does, given the arguments of the call, the draws of [Math.random()], and
    who wins a race that ends in a tie.  The answer to an invocation may
    depend on the call and on the invocation in any way, and so on whatever
    the invocation sends. *)
Record upstream := mkUpstream {
  create : nat -> request -> operation completion;
  random : nat -> nat -> Q;
  tie : nat -> Timeout.winner
}.

Record config := mkConfig {
  GPT_MODE : string;
  HISTORY_LENGTH : Z;
  OPENAI_MODEL : string;
  FALLBACK_MODEL : string;
  OPENAI_RETRIES : Z;
  OPENAI_TIMEOUT_MS : Z
}.

(** The defaults of the environment variables. *)
Definition default_config : config :=
  {| GPT_MODE := "CHAT";
     HISTORY_LENGTH := 6;
     OPENAI_MODEL := "gpt-5";
     FALLBACK_MODEL := "gpt-5-mini";
     OPENAI_RETRIES := 3;
     OPENAI_TIMEOUT_MS := 20000 |}.

(** What a run has done so far: the clock, the timers, and for every call of
    [callOpenAIChat] its arguments as they are when the call is made and the
    final state of its retry loop. *)
Record world := mkWorld {
  now : Z;
  timer_table : Timeout.timers;
  invoked : list (request * Retry.state)
}.

(** The number of calls of [callOpenAIChat] made so far. *)
Definition call_index (w : world) : nat := List.length (invoked w).

Definition boot : world :=
  {| now := 0; timer_table := Timeout.no_timers; invoked := [] |}.

(** [{ retries: OPENAI_RETRIES, baseDelay: 400, factor: 2, onRetry }] *)
Definition call_options (cfg : config) : Retry.options :=
  {| Retry.retries := OPENAI_RETRIES cfg;
     Retry.baseDelay := 400;
     Retry.factor := 2 |}.

(** The inner [withRetry(() => create(...), { ... })] of [callOpenAIChat]. *)
Definition retry_sequence (cfg : config) (up : upstream) (req : request)
           (w : world) : option (promise completion * Retry.state) :=
  Retry.withRetry (create up (call_index w) req) (random up (call_index w))
                  (call_options cfg) (now w).

(** The time a retry sequence has taken: its invocations of [create] and
    the backoff sleeps between them. *)
Definition elapsed (up : upstream) (req : request) (w : world)
           (st : Retry.state) : Z :=
  Retry.time_spent (create up (call_index w) req) (Retry.calls st)
  + Retry.time_slept (Retry.events st).

(** [callOpenAIChat({ model, msgArray, temperature, maxTokens })]:
    [withTimeout(withRetry(() => create(...), { retries: OPENAI_RETRIES,
    baseDelay: 400, factor: 2, onRetry }), OPENAI_TIMEOUT_MS)]. *)
Definition callOpenAIChat (cfg : config) (up : upstream) (req : request)
           (w : world) : option (outcome completion * world) :=
  match retry_sequence cfg up req w with
  | None => None
  | Some (p, st) =>
      let '((t, o), tm) :=
        Timeout.withTimeout p (OPENAI_TIMEOUT_MS cfg) (now w)
                            (tie up (call_index w)) (timer_table w) in
      Some (o, {| now := t; timer_table := tm;
                  invoked := invoked w ++ [(req, st)] |})
  end.

(** ** trimForTwitch *)

Definition trimForTwitch (text : string) : string :=
  if String.eqb text "" then ""
  else if (String.length text <=? 1000)%nat then text
  else substring 0 1000 text.

(** ** The route [/gpt/:text] *)

Module Route.

(** The white space and line terminators [String.prototype.trim] removes,
    among the units 0 to 255 that a [string] is made of: tab, line feed,
    vertical tab, form feed, carriage return, space and no-break space. *)
Definition is_space (c : ascii) : bool :=
  match N_of_ascii c with
  | 9%N | 10%N | 11%N | 12%N | 13%N | 32%N | 160%N => true
  | _ => false
  end.

Fixpoint trimStart (s : string) : string :=
  match s with
  | EmptyString => EmptyString
  | String c s' => if is_space c then trimStart s' else s
  end.

Fixpoint trimEnd (s : string) : string :=
  match s with
  | EmptyString => EmptyString
  | String c s' =>
      let r := trimEnd s' in
      if is_space c && String.eqb r "" then EmptyString else String c r
  end.

(** [s.trim()] *)
Definition trim (s : string) : string := trimEnd (trimStart s).

(** What [res.status(code).send(body)] sends. *)
Record reply := mkReply {
  statusCode : Z;
  body : string
}.

(** The Express response: [None] while [res.headersSent] is false, the
    reply that went out afterwards. *)
Definition response : Type := option reply.

(** [res.status(code).send(body)] reaches the client only while nothing has
    been sent; the error path tests [res.headersSent] itself, and on the
    success path sending twice throws into the same [catch], which then
    sends nothing. *)
Definition send (r : reply) (res : response) : response :=
  match res with
  | Some _ => res
  | None => Some r
  end.

(** The reply of the response-timeout middleware. *)
Definition gateway_timeout : reply :=
  {| statusCode := 504;
     body := "Gateway Timeout: server took too long to respond." |}.

(** The module-level state: the shared [messages] array and
    [file_context]. *)
Record server := mkServer {
  messages : list exchange;
  file_context : string
}.

Definition default_prompt : string := "You are a helpful Twitch Chatbot.".

Definition initial : server :=
  {| messages := [ {| ex_role := system; content := default_prompt |} ];
     file_context := default_prompt |}.

(** [xs.splice(start, count)], for its effect on [xs]. *)
Definition splice {A} (start count : nat) (xs : list A) : list A :=
  firstn start xs ++ skipn (start + count) xs.

(** [messages.push({ role: 'user', content: text })] followed by the
    eviction [if (messages.length > maxLen) messages.splice(1, 2)]. *)
Definition push_user (cfg : config) (text : string) (msgs : list exchange)
  : list exchange :=
  let msgs1 := msgs ++ [ {| ex_role := user; content := text |} ] in
  let maxLen := HISTORY_LENGTH cfg * 2 + 1 in
  if Z.of_nat (List.length msgs1) >? maxLen then splice 1 2 msgs1 else msgs1.

(** [messages.push({ role: 'assistant', content: agent_response })] *)
Definition push_assistant (agent_response : string) (msgs : list exchange)
  : list exchange :=
  msgs ++ [ {| ex_role := assistant; content := agent_response |} ].

(** [fallbackModel && fallbackModel !== primaryModel] *)
Definition use_fallback (cfg : config) : bool :=
  negb (String.eqb (FALLBACK_MODEL cfg) "")
  && negb (String.eqb (FALLBACK_MODEL cfg) (OPENAI_MODEL cfg)).

(** The inner [try { primary } catch (err) { fallback or throw err }],
    which both modes spell out with their own payload [mk model]. *)
Definition with_fallback (cfg : config) (up : upstream)
           (mk : string -> request) (w : world)
  : option (outcome completion * world) :=
  match callOpenAIChat cfg up (mk (OPENAI_MODEL cfg)) w with
  | None => None
  | Some (Resolved c, w1) => Some (Resolved c, w1)
  | Some (Rejected err, w1) =>
      if use_fallback cfg
      then callOpenAIChat cfg up (mk (FALLBACK_MODEL cfg)) w1
      else Some (Rejected err, w1)
  end.

Definition or_default (v : option string) (d : string) : string :=
  match Js.or_str v (Some d) with
  | Some s => s
  | None => d
  end.

(** [String(response?.choices?.[0]?.message?.content || '').trim()] *)
Definition agent_response (c : completion) : string :=
  trim (or_default (first_content c) "").

(** [(err?.response?.data && JSON.stringify(err.response.data)) ||
    err?.message || 'Unknown error'] *)
Definition detail_of (err : error) : string :=
  or_default
    (Js.or_str (match err_response err with
                | Some r => resp_data r
                | None => None
                end)
               (err_message err))
    "Unknown error".

Definition upstreamStatuses : list Z := [429; 500; 502; 503; 504].

(** [[429, 500, 502, 503, 504].includes(status) ? 503 : 500] *)
Definition httpStatus (err : error) : Z :=
  if Js.has_num upstreamStatuses (status_of err) then 503 else 500.

(** [`AI backend temporarily unavailable (status=${status || httpStatus}).
    Details: ${detail}`] *)
Definition failure_body (err : error) : string :=
  ("AI backend temporarily unavailable (status="
     ++ Js.show_opt (Js.or_num (status_of err) (Some (httpStatus err)))
     ++ "). Details: " ++ detail_of err)%string.

(** The outer [catch (err)] of the route. *)
Definition on_failure (err : error) (res : response) : response :=
  send {| statusCode := httpStatus err; body := failure_body err |} res.

(** The end of the [try] block. *)
Definition on_success (agent_response : string) (res : response) : response :=
  send {| statusCode := 200; body := trimForTwitch agent_response |} res.

Definition chat_request (msgs : list exchange) (m : string) : request :=
  {| model := m; msgArray := msgs; temperature := 1 # 2; maxTokens := 592 |}.

Definition prompt_request (file_context text : string) (m : string) : request :=
  {| model := m;
     msgArray :=
       [ {| ex_role := system; content := default_prompt |};
         {| ex_role := user;
            content := (file_context ++ String "010" (String "010" "Q: ")
                          ++ text ++ String "010" "A:")%string |} ];
     temperature := 1 # 2;
     maxTokens := 256 |}.

(** The payload builder of a request, by mode. *)
Definition payload (cfg : config) (text : string) (srv : server)
  : string -> request :=
  if String.eqb (GPT_MODE cfg) "CHAT"
  then chat_request (push_user cfg text (messages srv))
  else prompt_request (file_context srv) text.

(** One request [GET /gpt/:text].  [res] is the response as the handler
    finds it when it comes to reply: [Some gateway_timeout] if the
    response-timeout middleware has replied in the meantime. *)
Definition handler (cfg : config) (up : upstream) (text : string)
           (res : response) (srv : server) (w : world)
  : option (response * server * world) :=
  if String.eqb (GPT_MODE cfg) "CHAT" then
    let msgs1 := push_user cfg text (messages srv) in
    match with_fallback cfg up (chat_request msgs1) w with
    | None => None
    | Some (Resolved c, w1) =>
        let a := agent_response c in
        Some (on_success a res,
              {| messages := push_assistant a msgs1;
                 file_context := file_context srv |},
              w1)
    | Some (Rejected err, w1) =>
        Some (on_failure err res,
              {| messages := msgs1; file_context := file_context srv |},
              w1)
    end
  else
    match with_fallback cfg up
            (prompt_request (file_context srv) text) w with
    | None => None
    | Some (Resolved c, w1) => Some (on_success (agent_response c) res, srv, w1)
    | Some (Rejected err, w1) => Some (on_failure err res, srv, w1)
    end.

(** The conversation a request leaves behind. *)
Definition after_request (cfg : config) (text : string) (srv : server)
           (r : outcome completion) : server :=
  if String.eqb (GPT_MODE cfg) "CHAT"
  then {| messages :=
            match r with
            | Resolved c =>
                push_assistant (agent_response c)
                               (push_user cfg text (messages srv))
            | Rejected _ => push_user cfg text (messages srv)
            end;
          file_context := file_context srv |}
  else srv.

(** The reply to a request. *)
Definition reply_to (r : outcome completion) (res : response) : response :=
  match r with
  | Resolved c => on_success (agent_response c) res
  | Rejected err => on_failure err res
  end.

(** The exchanges of a list of (query, reply) pairs, oldest first. *)
Definition turns (pairs : list (string * string)) : list exchange :=
  flat_map (fun qa => [ {| ex_role := user; content := fst qa |};
                        {| ex_role := assistant; content := snd qa |} ])
           pairs.

(** The [h] most recent pairs. *)
Definition recent {A} (h : nat) (pairs : list A) : list A :=
  skipn (List.length pairs - h) pairs.

(** The effect of one successful request on [messages]. *)
Definition cycle (cfg : config) (msgs : list exchange) (qa : string * string)
  : list exchange :=
  push_assistant (snd qa) (push_user cfg (fst qa) msgs).

(** A reply with status 200. *)
Definition is_ok (res : response) : Prop :=
  exists b, res = Some {| statusCode := 200; body := b |}.

(** Requests served one after the other, each finding its response
    unsent. *)
Fixpoint serve (cfg : config) (up : upstream) (texts : list string)
         (srv : server) (w : world)
  : option (list response * server * world) :=
  match texts with
  | [] => Some ([], srv, w)
  | text :: rest =>
      match handler cfg up text None srv w with
      | None => None
      | Some (res, srv1, w1) =>
          match serve cfg up rest srv1 w1 with
          | None => None
          | Some (ress, srv2, w2) => Some (res :: ress, srv2, w2)
          end
      end
  end.

End Route.

(** ** Sample runs used below *)

Module Samples.

Definition always (e : error) : operation completion :=
  fun _ => Settles 8000 (Rejected e).

Definition unavailable : error :=
  {| err_status := Some 503; err_response := None; err_code := None;
     err_message := Some "Service Unavailable" |}.

Definition unauthorized : error :=
  {| err_status := Some 401; err_response := None; err_code := None;
     err_message := Some "Unauthorized" |}.

(** An upstream service that rejects every invocation with a 401 after
    eight seconds. *)
Definition locked_out : upstream :=
  {| create := fun _ _ => always unauthorized;
     random := fun _ _ => 1 # 2;
     tie := fun _ => Timeout.TimerWins |}.

(** An upstream service that answers every invocation at once. *)
Definition helpful : upstream :=
  {| create := fun _ _ _ =>
       Settles 100 (Resolved {| first_content := Some " hi " |});
     random := fun _ _ => 1 # 2;
     tie := fun _ => Timeout.TimerWins |}.

(** The default configuration with another history window. *)
Definition with_history (h : Z) : config :=
  {| GPT_MODE := "CHAT";
     HISTORY_LENGTH := h;
     OPENAI_MODEL := "gpt-5";
     FALLBACK_MODEL := "gpt-5-mini";
     OPENAI_RETRIES := 3;
     OPENAI_TIMEOUT_MS := 20000 |}.

(** An upstream service that answers every invocation with a 503 at
    once. *)
Definition struggling : upstream :=
  {| create := fun _ _ _ => Settles 100 (Rejected unavailable);
     random := fun _ _ => 1 # 2;
     tie := fun _ => Timeout.TimerWins |}.

(** An upstream service that knows the fallback model only. *)
Definition picky : upstream :=
  {| create := fun _ req _ =>
       if String.eqb (model req) "gpt-5-mini"
       then Settles 100 (Resolved {| first_content := Some " hi " |})
       else Settles 100 (Rejected unauthorized);
     random := fun _ _ => 1 # 2;
     tie := fun _ => Timeout.TimerWins |}.

(** An upstream service that answers every invocation with a 503 after
    eight seconds. *)
Definition overloaded : upstream :=
  {| create := fun _ _ => always unavailable;
     random := fun _ _ => 1 # 2;
     tie := fun _ => Timeout.TimerWins |}.

Definition question : request :=
  {| model := "gpt-5";
     msgArray := [ {| ex_role := system; content := "Be brief." |};
                   {| ex_role := user; content := "Hello?" |} ];
     temperature := 1 # 2;
     maxTokens := 592 |}.

(** Retry budget 2 and no fallback model other than the primary. *)
Definition two_retries_no_fallback : config :=
  {| GPT_MODE := "CHAT";
     HISTORY_LENGTH := 6;
     OPENAI_MODEL := "gpt-5";
     FALLBACK_MODEL := "gpt-5";
     OPENAI_RETRIES := 2;
     OPENAI_TIMEOUT_MS := 20000 |}.

(** A reply of 1500 units. *)
Definition long_reply : string :=
  string_of_list_ascii (repeat "a"%char 1500).

(** What a run of [serve] leaves in [messages]. *)
Definition conversation_after
           (out : option (list Route.response * Route.server * world))
  : option (list exchange) :=
  option_map (fun o => Route.messages (snd (fst o))) out.

(** The replies of a run of [serve]. *)
Definition replies_of
           (out : option (list Route.response * Route.server * world))
  : option (list Route.response) :=
  option_map (fun o => fst (fst o)) out.

(** For every call of [callOpenAIChat] in a run, the model and the number of
    invocations of [create]. *)
Definition attempts_of
           (out : option (list Route.response * Route.server * world))
  : option (list (string * nat)) :=
  option_map (fun o => map (fun c => (model (fst c), Retry.calls (snd c)))
                           (invoked (snd o)))
             out.

End Samples.

(** ** Start-up: settings, diagnostics and the context file *)

Module Boot.

(** [process.env.NAME || fallback] for a setting used as a string; [None] is
    an unset variable. *)
Definition env_or (v : option string) (fallback : string) : string :=
  Route.or_default v fallback.


(** [s.slice(-n)]: the last [n] units of [s], all of [s] when it is
    shorter. *)
Definition slice_last (n : nat) (s : string) : string :=
  substring (String.length s - n) n s.

(** [(process.env.OPENAI_API_KEY || '').slice(-6)] *)
Definition keyTail (key : option string) : string :=
  slice_last 6 (env_or key "").

(** [keyTail ? `(ending with ...${keyTail})` : ''], the end of the boot line
    about the key. *)
Definition key_note (key : option string) : string :=
  if String.eqb (keyTail key) "" then ""
  else ("(ending with ..." ++ keyTail key ++ ")")%string.

(** [loadFileContextForChatMode], [file] being what [readFile] gives:
    [None] when it rejects.  [messages[0].content = data] throws on an empty
    array, inside the same [try]. *)
Definition loadFileContextForChatMode (file : option string)
           (srv : Route.server) : Route.server :=
  match file with
  | None => srv
  | Some data =>
      match Route.messages srv with
      | [] => srv
      | m :: rest =>
          {| Route.messages := {| ex_role := ex_role m; content := data |} :: rest;
             Route.file_context := Route.file_context srv |}
      end
  end.

(** [loadFileContextForPromptMode] *)
Definition loadFileContextForPromptMode (file : option string)
           (srv : Route.server) : Route.server :=
  match file with
  | None => srv
  | Some data =>
      {| Route.messages := Route.messages srv; Route.file_context := data |}
  end.

(** [if (GPT_MODE === 'CHAT') loadFileContextForChatMode() else
    loadFileContextForPromptMode()] *)
Definition loadFileContext (cfg : config) (file : option string)
           (srv : Route.server) : Route.server :=
  if String.eqb (GPT_MODE cfg) "CHAT"
  then loadFileContextForChatMode file srv
  else loadFileContextForPromptMode file srv.

End Boot.

(** ** The route behind the response-timeout middleware *)

Module Server.

(** What [res.setTimeout(msecs, ...)] does with the idle timeout of the
    socket: a negative [msecs] is refused with a range error, [0] switches
    the timeout off, any other value arms it, for at most [TIMEOUT_MAX]
    milliseconds. *)
Inductive idle_timeout : Type :=
| Refused
| Off
| IdleAfter (ms : Z).

Definition setTimeout (msecs : Z) : idle_timeout :=
  if msecs <? 0 then Refused
  else if msecs =? 0 then Off
  else IdleAfter (Z.min msecs Timeout.TIMEOUT_MAX).

(** [res.setTimeout(SERVER_TIMEOUT_MS, () => { if (!res.headersSent)
    res.status(504).send(...) })] against a handler that comes to reply at
    [done]: the response as the handler finds it.  The request arrived at
    [arrival] and nothing is read or written on the socket before the
    reply; [tie] says who is first when both fall on the same
    millisecond. *)
Definition before_reply (SERVER_TIMEOUT_MS arrival done : Z)
           (tie : Timeout.winner) : Route.response :=
  match setTimeout SERVER_TIMEOUT_MS with
  | IdleAfter ms =>
      match Timeout.race (Settled done (Resolved tt)) (arrival + ms) tie with
      | Timeout.OperationWins => None
      | Timeout.TimerWins => Some Route.gateway_timeout
      end
  | Off | Refused => None
  end.

(** What becomes of a request: the middleware throws and the route does not
    run, or the route runs and leaves a response, a state and a world. *)
Inductive served : Type :=
| MiddlewareThrows
| Routed (res : Route.response) (srv : Route.server) (w : world).

(** One request through the middleware and the route. *)
Definition request (cfg : config) (SERVER_TIMEOUT_MS : Z)
           (tie : Timeout.winner) (up : upstream) (text : string)
           (srv : Route.server) (w : world) : option served :=
  match setTimeout SERVER_TIMEOUT_MS with
  | Refused => Some MiddlewareThrows
  | Off | IdleAfter _ =>
      match Route.with_fallback cfg up (Route.payload cfg text srv) w with
      | None => None
      | Some (_, w1) =>
          match Route.handler cfg up text
                  (before_reply SERVER_TIMEOUT_MS (now w) (now w1) tie)
                  srv w with
          | None => None
          | Some (res, srv', w') => Some (Routed res srv' w')
          end
      end
  end.

End Server.

(** ** The route before the retry, timeout and fallback wrappers
    (src/unnamed/part_000) *)

Module Legacy.

(** [String(response?.choices?.[0]?.message?.content ?? '').trim()] *)
Definition agent_response (c : completion) : string :=
  Route.trim (match first_content c with
              | Some s => s
              | None => ""
              end).

(** [if (agent_response.length > 1000) agent_response =
    agent_response.substring(0, 1000)] *)
Definition cut (agent_response : string) : string :=
  if (1000 <? String.length agent_response)%nat
  then substring 0 1000 agent_response
  else agent_response.

(** [err?.response?.data?.error?.message || err?.message || 'Unknown error'],
    [nested] being [err?.response?.data?.error?.message]. *)
Definition detail_of (nested : option string) (err : error) : string :=
  Route.or_default (Js.or_str nested (err_message err)) "Unknown error".

(** [res.status(500).send(`Something went wrong with the AI call: ${detail}`)] *)
Definition failure (nested : option string) (err : error) : Route.reply :=
  {| Route.statusCode := 500;
     Route.body := ("Something went wrong with the AI call: "
                      ++ detail_of nested err)%string |}.

(** One request.  [answer] is what the single call of
    [openai.chat.completions.create] with the payload does, [nested] reads
    [err?.response?.data?.error?.message] off an error.  No reply goes out
    while the call does not settle. *)
Definition handler (cfg : config) (answer : request -> settle completion)
           (nested : error -> option string) (text : string)
           (srv : Route.server) : option Route.reply * Route.server :=
  if String.eqb (GPT_MODE cfg) "CHAT" then
    let msgs1 := Route.push_user cfg text (Route.messages srv) in
    let kept := {| Route.messages := msgs1;
                   Route.file_context := Route.file_context srv |} in
    match answer (Route.chat_request msgs1 (OPENAI_MODEL cfg)) with
    | Settles _ (Resolved c) =>
        let a := agent_response c in
        (Some {| Route.statusCode := 200; Route.body := cut a |},
         {| Route.messages := Route.push_assistant a msgs1;
            Route.file_context := Route.file_context srv |})
    | Settles _ (Rejected err) => (Some (failure (nested err) err), kept)
    | Never => (None, kept)
    end
  else
    match answer (Route.prompt_request (Route.file_context srv) text
                                       (OPENAI_MODEL cfg)) with
    | Settles _ (Resolved c) =>
        (Some {| Route.statusCode := 200;
                 Route.body := cut (agent_response c) |}, srv)
    | Settles _ (Rejected err) => (Some (failure (nested err) err), srv)
    | Never => (None, srv)
    end.

End Legacy.

(** ** What the [onRetry] log holds *)

Module RetryLog.
Import Retry.

(** The [k]-th [onRetry] event reports the error of the [k]-th invocation. *)
Definition reports {A} (fn : operation A) (rnd : nat -> Q) (o : options)
           (k : nat) (ev : retry_event) : Prop :=
  exists d e,
    fn k = Settles d (Rejected e)
    /\ ev = {| ev_attempt := S k;
               ev_status := status_of e;
               ev_code := code_of e;
               ev_delay := delay_of o (S k) (rnd k);
               ev_message := err_message e |}.

Definition log_ok {A} (fn : operation A) rnd o (st : state) : Prop :=
  attempt st = List.length (events st)
  /\ calls st = List.length (events st)
  /\ forall k ev, nth_error (events st) k = Some ev -> reports fn rnd o k ev.

End RetryLog.

(** ** More sample runs *)

Module MoreSamples.
Import Samples.

(** Single-shot mode with the other settings at their defaults. *)
Definition prompt_config : config :=
  {| GPT_MODE := "PROMPT";
     HISTORY_LENGTH := 6;
     OPENAI_MODEL := "gpt-5";
     FALLBACK_MODEL := "gpt-5-mini";
     OPENAI_RETRIES := 3;
     OPENAI_TIMEOUT_MS := 20000 |}.

(** An upstream service whose completions carry no content. *)
Definition silent : upstream :=
  {| create := fun _ _ _ =>
       Settles 100 (Resolved {| first_content := None |});
     random := fun _ _ => 1 # 2;
     tie := fun _ => Timeout.TimerWins |}.


(** The single call of the earlier route, rejected with a 401. *)
Definition refused : request -> settle completion :=
  fun _ => Settles 100 (Rejected unauthorized).

(** Errors without [response.data.error.message]. *)
Definition no_nested : error -> option string := fun _ => None.

(** A client timeout of zero milliseconds. *)
Definition no_time : config :=
  {| GPT_MODE := "CHAT";
     HISTORY_LENGTH := 6;
     OPENAI_MODEL := "gpt-5";
     FALLBACK_MODEL := "gpt-5-mini";
     OPENAI_RETRIES := 3;
     OPENAI_TIMEOUT_MS := 0 |}.

(** An upstream service that rejects the first two calls with a 401 and
    answers the later ones. *)
Definition recovering : upstream :=
  {| create := fun i _ _ =>
       if (i <? 2)%nat
       then Settles 100 (Rejected unauthorized)
       else Settles 100 (Resolved {| first_content := Some " hi " |});
     random := fun _ _ => 1 # 2;
     tie := fun _ => Timeout.TimerWins |}.

End MoreSamples.

(** * Properties of the retry loop *)

Module RetryFacts.
Import Retry Samples.

Lemma decide_rethrow o a err r :
  decide o a err r = Rethrow <-> retriable err = false \/ retries o < Z.of_nat a.
Proof.
  unfold decide. rewrite Z.gtb_ltb.
  destruct (retriable err); simpl.
  - destruct (Z.ltb_spec (retries o) (Z.of_nat a)) as [Hlt | Hge]; split; intros E.
    + now right.
    + reflexivity.
    + discriminate.
    + destruct E as [E | E]; [discriminate | lia].
  - split; intros _; [now left | reflexivity].
Qed.

Lemma decide_retry o a err r delay :
  decide o a err r = RetryAfter delay ->
  retriable err = true /\ Z.of_nat a <= retries o /\ delay = delay_of o a r.
Proof.
  unfold decide.
  destruct (retriable err); simpl; [| discriminate].
  rewrite Z.gtb_ltb.
  destruct (Z.ltb_spec (retries o) (Z.of_nat a)) as [Hlt | Hge]; [discriminate |].
  intros E; inversion E; repeat split; lia.
Qed.

Section Loop.
Context {A : Type} (fn : operation A) (rnd : nat -> Q) (o : options).

(** More unrolling does not change a result. *)
Lemma loop_fuel_mono fuel : forall st r,
  loop fuel fn rnd o st = Some r ->
  forall fuel', (fuel <= fuel')%nat -> loop fuel' fn rnd o st = Some r.
Proof.
  induction fuel as [| fuel IH]; intros st r H fuel' Hle; [discriminate |].
  destruct fuel' as [| fuel']; [lia |].
  simpl in *.
  destruct (fn (calls st)) as [d [v | err] |]; try exact H.
  destruct (decide o (S (attempt st)) err _); [exact H |].
  apply IH with (fuel' := fuel') in H; [exact H | lia].
Qed.

(** The loop ends as soon as the unrolling exceeds the retries left. *)
Lemma loop_total fuel : forall st,
  (Z.to_nat (retries o) - attempt st < fuel)%nat ->
  exists r, loop fuel fn rnd o st = Some r.
Proof.
  induction fuel as [| fuel IH]; intros st Hf; [lia |].
  simpl.
  destruct (fn (calls st)) as [d [v | err] |]; try (eexists; reflexivity).
  destruct (decide o (S (attempt st)) err _) eqn:D; [eexists; reflexivity |].
  apply decide_retry in D as (_ & Hle & _).
  apply IH; simpl; lia.
Qed.

Lemma loop_spec fuel : forall st p st',
  loop fuel fn rnd o st = Some (p, st') ->
  (calls st < calls st')%nat
  /\ (calls st' - calls st <= S (Z.to_nat (retries o) - attempt st))%nat
  /\ (forall k, (calls st <= k)%nat -> (S k < calls st')%nat ->
               exists d e, fn k = Settles d (Rejected e) /\ retriable e = true)
  /\ last_call_settles fn o p st'
  /\ failures_counted p st st'.
Proof.
  unfold last_call_settles, failures_counted.
  induction fuel as [| fuel IH]; intros st p st' H; [discriminate |].
  simpl in H.
  destruct (fn (calls st)) as [d [v | err] |] eqn:F.
  - inversion H; subst; clear H; cbn [calls attempt clock events Nat.pred]. rewrite F.
    split; [lia | split; [ lia | split; [| split; [reflexivity | lia]]]].
    intros k Hk1 Hk2; lia.
  - destruct (decide o (S (attempt st)) err _) eqn:D.
    + inversion H; subst; clear H; cbn [calls attempt clock events Nat.pred]. rewrite F.
      apply decide_rethrow in D.
      split; [lia | split; [lia | split; [| split; [split |]]]].
      * intros k Hk1 Hk2; lia.
      * reflexivity.
      * destruct D as [D | D]; [now left | right; lia].
      * lia.
    + apply decide_retry in D as (Hret & Hle & _).
      apply IH in H as (H1 & H2 & H3 & H4 & H5); cbn [calls attempt clock events] in *.
      split; [lia | split; [lia | split; [| split; [exact H4 |]]]].
      * intros k Hk1 Hk2.
        destruct (Nat.eq_dec k (calls st)) as [-> | Hne].
        -- exists d, err; now split.
        -- apply H3; lia.
      * destruct p as [t [v | e] |]; lia.
  - inversion H; subst; clear H; cbn [calls attempt clock events Nat.pred]. rewrite F.
    split; [lia | split; [lia | split; [| split; [reflexivity | lia]]]].
    intros k Hk1 Hk2; lia.
Qed.
End Loop.

(** The loop started by [withRetry] ends within its unrolling. *)
Lemma withRetry_total {A} (fn : operation A) rnd o start :
  exists p st, withRetry fn rnd o start = Some (p, st).
Proof.
  destruct (loop_total fn rnd o (enough o) (init start)) as [[p st] H].
  - unfold enough; simpl; lia.
  - now exists p, st.
Qed.

(** C1.  With a retry budget [retries >= 0], the loop of [withRetry] ends
    after at least one and at most [retries + 1] invocations of [fn].  The first
    success is returned at once: when the invocations before the [k]-th
    fail with retriable errors and the [k]-th succeeds within the budget,
    exactly [k + 1] invocations are made and the promise resolves with that
    value; no invocation follows a success.  When [retries + 1]
    invocations have been made and the last one fails, its error is the
    one rethrown, retriable or not; this happens whenever every invocation
    fails with a retriable error. *)
Theorem withRetry_attempt_bound {A} (fn : operation A) (rnd : nat -> Q)
        (o : options) (start : Z) :
  0 <= retries o ->
  exists p st,
    withRetry fn rnd o start = Some (p, st)
    /\ (1 <= calls st)%nat
    /\ Z.of_nat (calls st) <= retries o + 1
    /\ (forall k d v,
          Z.of_nat k <= retries o ->
          (forall j, (j < k)%nat ->
                     exists dj ej, fn j = Settles dj (Rejected ej)
                                   /\ retriable ej = true) ->
          fn k = Settles d (Resolved v) ->
          calls st = S k /\ exists t, p = Settled t (Resolved v))
    /\ (forall k d v,
          (k < calls st)%nat -> fn k = Settles d (Resolved v) ->
          calls st = S k /\ exists t, p = Settled t (Resolved v))
    /\ (forall d e,
          Z.of_nat (calls st) = retries o + 1 ->
          fn (Z.to_nat (retries o)) = Settles d (Rejected e) ->
          exists t, p = Settled t (Rejected e))
    /\ ((forall k, Z.of_nat k <= retries o ->
                   exists d e, fn k = Settles d (Rejected e)
                               /\ retriable e = true) ->
        Z.of_nat (calls st) = retries o + 1).
Proof.
  intros HR.
  destruct (withRetry_total fn rnd o start) as (p & st & H).
  exists p, st. split; [exact H |].
  unfold withRetry in H.
  apply loop_spec in H as (H1 & H2 & H3 & H4 & H5).
  unfold last_call_settles, failures_counted in *.
  cbn [init calls attempt] in *.
  assert (Hsafe : forall k d v,
             (k < calls st)%nat -> fn k = Settles d (Resolved v) ->
             calls st = S k /\ exists t, p = Settled t (Resolved v)).
  { intros k d v Hk Fk.
    destruct (Nat.eq_dec (S k) (calls st)) as [E | NE].
    - split; [now symmetry |].
      rewrite <- E in H4; cbn [Nat.pred] in H4. rewrite Fk in H4.
      now exists (clock st).
    - destruct (H3 k) as (d' & e' & Fk' & _); [lia | lia |].
      rewrite Fk in Fk'; discriminate. }
  assert (Hlast : forall d e,
             fn (pred (calls st)) = Settles d (Rejected e) ->
             p = Settled (clock st) (Rejected e)
             /\ (retriable e = true -> retries o < Z.of_nat (calls st))).
  { intros d e F. rewrite F in H4. destruct H4 as [-> H4].
    split; [reflexivity |]. intros R.
    destruct H4 as [H4 | H4]; [congruence | lia]. }
  split; [lia |]. split; [lia |].
  split; [| split; [exact Hsafe | split]].
  - intros k d v Hk Hbefore Fk.
    apply Hsafe with (d := d); [| exact Fk].
    destruct (Nat.lt_ge_cases k (calls st)) as [Hlt | Hge]; [exact Hlt |].
    destruct (Hbefore (pred (calls st))) as (dj & ej & Fj & Rj); [lia |].
    apply Hlast in Fj as [_ Fj]. specialize (Fj Rj). lia.
  - intros d e Hc F.
    replace (Z.to_nat (retries o)) with (pred (calls st)) in F by lia.
    apply Hlast in F as [-> _]. now exists (clock st).
  - intros Hall.
    destruct (Hall (pred (calls st))) as (d & e & F & R); [lia |].
    apply Hlast in F as [_ F]. specialize (F R). lia.
Qed.

Lemma withRetry_attempt_bound_witness :
  0 <= retries defaults
  /\ exists p st,
       withRetry (always unavailable) (fun _ => 1 # 2) defaults 0 = Some (p, st)
       /\ Z.of_nat (calls st) <= retries defaults + 1.
Proof.
  split; [simpl; lia |].
  destruct (withRetry_attempt_bound (always unavailable) (fun _ => 1 # 2)
                                    defaults 0)
    as (p & st & H & _ & Hb & _); [simpl; lia |].
  exists p, st. split; [exact H | exact Hb].
Defined.

Lemma has_num_In xs v :
  Js.has_num xs v = true <-> exists s, v = Some s /\ In s xs.
Proof.
  destruct v as [n |]; simpl.
  - rewrite existsb_exists. split.
    + intros (x & Hin & E). apply Z.eqb_eq in E; subst. now exists x.
    + intros (s & E & Hin). inversion E; subst. exists s.
      split; [exact Hin | apply Z.eqb_refl].
  - split; [discriminate | intros (s & E & _); discriminate].
Qed.

Lemma has_str_In xs v :
  Js.has_str xs v = true <-> exists s, v = Some s /\ In s xs.
Proof.
  destruct v as [n |]; simpl.
  - rewrite existsb_exists. split.
    + intros (x & Hin & E). apply String.eqb_eq in E; subst. now exists x.
    + intros (s & E & Hin). inversion E; subst. exists s.
      split; [exact Hin | apply String.eqb_refl].
  - split; [discriminate | intros (s & E & _); discriminate].
Qed.

(** C2.  An error is classified as retriable exactly when its status
    ([err.status || err.response.status]) is one of 408, 409, 425, 429,
    500, 502, 503, 504 or its code is one of the seven transient network
    codes.  While the budget lasts the decision in the [catch] block is to
    retry exactly for those errors; any other error is rethrown at
    whatever attempt, and when it is the error of the first invocation,
    [withRetry] rejects with it after that single invocation, without an
    [onRetry] event or a sleep.  A retriable first failure with a budget
    of at least one retry is followed by a second invocation. *)
Theorem retry_eligibility :
  (forall err,
      retriable err = true <->
      (exists s, status_of err = Some s
                 /\ In s [408; 409; 425; 429; 500; 502; 503; 504])
      \/ (exists c, code_of err = Some c
                    /\ In c ["ECONNRESET"; "EPIPE"; "UND_ERR_CONNECT_TIMEOUT";
                             "UND_ERR_HEADERS_TIMEOUT"; "UND_ERR_BODY_TIMEOUT";
                             "ETIMEDOUT"; "ESOCKETTIMEDOUT"]))
  /\ (forall o a err r,
        Z.of_nat a <= retries o ->
        decide o a err r =
        if retriable err then RetryAfter (delay_of o a r) else Rethrow)
  /\ (forall o a err r, retriable err = false -> decide o a err r = Rethrow)
  /\ (forall A (fn : operation A) rnd o start d err,
        fn 0%nat = Settles d (Rejected err) ->
        retriable err = false ->
        withRetry fn rnd o start =
        Some (Settled (start + d) (Rejected err),
              {| attempt := 1; clock := start + d; calls := 1;
                 events := [] |}))
  /\ (forall A (fn : operation A) rnd o start d err,
        fn 0%nat = Settles d (Rejected err) ->
        retriable err = true ->
        1 <= retries o ->
        exists p st,
          withRetry fn rnd o start = Some (p, st) /\ (2 <= calls st)%nat).
Proof.
  split; [| split; [| split; [| split]]].
  - intros err. unfold retriable.
    rewrite orb_true_iff, has_num_In, has_str_In. reflexivity.
  - intros o a err r Ha. unfold decide. rewrite Z.gtb_ltb.
    destruct (Z.ltb_spec (retries o) (Z.of_nat a)) as [Hlt | _]; [lia |].
    now destruct (retriable err).
  - intros o a err r Hn. apply decide_rethrow. now left.
  - intros A fn rnd o start d err F Hn.
    unfold withRetry, enough. cbn [loop init calls attempt clock events].
    rewrite F.
    replace (decide o 1 err _) with Rethrow; [reflexivity |].
    symmetry. apply decide_rethrow. now left.
  - intros A fn rnd o start d err F Hr HR.
    destruct (withRetry_total fn rnd o start) as (p & st & H).
    exists p, st. split; [exact H |].
    unfold withRetry, enough in H.
    cbn [loop init calls attempt clock events] in H.
    rewrite F in H.
    destruct (decide o 1 err _) eqn:D.
    + apply decide_rethrow in D. destruct D as [D | D]; [congruence | lia].
    + apply loop_spec in H as (H1 & _). cbn [calls] in H1. lia.
Qed.

Lemma retry_eligibility_witness :
  withRetry (always unauthorized) (fun _ => 1 # 2) defaults 0 =
  Some (Settled (0 + 8000) (Rejected unauthorized),
        {| attempt := 1; clock := 0 + 8000; calls := 1; events := [] |}).
Proof.
  apply (proj1 (proj2 (proj2 (proj2 retry_eligibility)))); reflexivity.
Defined.

(** [Math.round] of an integer plus a fraction in [0, 200). *)
Lemma Math_round_jitter (b : Z) (j : Q) :
  (0 <= j)%Q -> (j < 200)%Q ->
  b <= Js.Math_round (inject_Z b + j)%Q <= b + 200.
Proof.
  intros H0 H1. unfold Js.Math_round.
  set (x := (inject_Z b + j + (1 # 2))%Q).
  split.
  - rewrite <- (Qfloor_Z b). apply Qfloor_resp_le. unfold x. lra.
  - assert (Hx : (x < inject_Z (b + 201))%Q).
    { unfold x. rewrite inject_Z_plus. change (inject_Z 201) with (201 # 1)%Q. lra. }
    pose proof (Qfloor_le x) as Hf.
    assert (Hlt : (inject_Z (Qfloor x) < inject_Z (b + 201))%Q)
      by (eapply Qle_lt_trans; eassumption).
    rewrite <- Zlt_Qlt in Hlt. lia.
Qed.




End RetryFacts.

(** * Properties of the clock, the timeout race and the composed call *)

Module ClockFacts.
Import Retry.

Lemma time_slept_snoc evs e :
  time_slept (evs ++ [e]) = time_slept evs + ev_delay e.
Proof.
  unfold time_slept. rewrite fold_right_app. cbn [fold_right].
  induction evs as [| x xs IH]; cbn [fold_right]; lia.
Qed.

(** The clock of a finished loop has advanced by the time of the invocations
    made plus the time slept between them. *)
Lemma loop_clock {A} (fn : operation A) rnd o fuel : forall st p st',
  loop fuel fn rnd o st = Some (p, st') ->
  clock st' - clock st =
  (time_spent fn (calls st') - time_spent fn (calls st))
  + (time_slept (events st') - time_slept (events st)).
Proof.
  induction fuel as [| fuel IH]; intros st p st' H; [discriminate |].
  cbn [loop] in H.
  destruct (fn (calls st)) as [d [v | err] |] eqn:F.
  - inversion H; subst; clear H. cbn [calls clock events time_spent].
    rewrite F. lia.
  - destruct (decide o (S (attempt st)) err _) eqn:D.
    + inversion H; subst; clear H. cbn [calls clock events time_spent].
      rewrite F. lia.
    + apply IH in H. cbn [calls clock events time_spent] in H.
      rewrite F, time_slept_snoc in H. cbn [ev_delay] in H. lia.
  - inversion H; subst; clear H. cbn [calls clock events time_spent].
    rewrite F. lia.
Qed.

Lemma withRetry_clock {A} (fn : operation A) rnd o start p st :
  withRetry fn rnd o start = Some (p, st) ->
  clock st = start + time_spent fn (calls st) + time_slept (events st).
Proof.
  intros H. apply loop_clock in H. cbn in H. lia.
Qed.

Lemma withRetry_settled_at {A} (fn : operation A) rnd o start t r st :
  withRetry fn rnd o start = Some (Settled t r, st) -> t = clock st.
Proof.
  intros H. apply RetryFacts.loop_spec in H as (_ & _ & _ & H & _).
  unfold last_call_settles in H.
  destruct (fn (pred (calls st))) as [d [v | e] |].
  - now inversion H.
  - destruct H as [H _]. now inversion H.
  - discriminate.
Qed.
End ClockFacts.

Module TimeoutFacts.
Import Timeout.







Lemma timer_delay_in_range ms :
  1 <= ms <= TIMEOUT_MAX -> timer_delay ms = ms.
Proof.
  intros [H1 H2]. unfold timer_delay.
  destruct (Z.leb_spec 1 ms); [| lia].
  destruct (Z.leb_spec ms TIMEOUT_MAX); [reflexivity | lia].
Qed.


(** The timer is armed for at least one millisecond, and for no more than
    asked once at least one is asked. *)
Lemma timer_delay_bounds ms :
  1 <= timer_delay ms /\ (1 <= ms -> timer_delay ms <= ms).
Proof.
  unfold timer_delay.
  destruct (Z.leb_spec 1 ms); destruct (Z.leb_spec ms TIMEOUT_MAX);
    cbn [andb]; lia.
Qed.

Lemma withTimeout_settlement {A} (p : promise A) ms start tie tm :
  fst (withTimeout p ms start tie tm) =
  match p with
  | Settled t0 o0 =>
      match race p (start + timer_delay ms) tie with
      | OperationWins => (t0, o0)
      | TimerWins => (start + timer_delay ms, Rejected (clientTimeout ms))
      end
  | Pending => (start + timer_delay ms, Rejected (clientTimeout ms))
  end.
Proof.
  unfold withTimeout, setTimeout.
  destruct p as [t0 o0 |]; [destruct (race _ _ _) |]; reflexivity.
Qed.

Lemma withTimeout_early {A} (p : promise A) ms start tie tm t0 o0 :
  p = Settled t0 o0 -> t0 < start + timer_delay ms ->
  fst (withTimeout p ms start tie tm) = (t0, o0).
Proof.
  intros -> Hlt. rewrite withTimeout_settlement. unfold race.
  destruct (Z.ltb_spec t0 (start + timer_delay ms)) as [_ | Hge];
    [reflexivity | lia].
Qed.

Lemma withTimeout_late {A} (p : promise A) ms start tie tm :
  (p = Pending
   \/ exists t0 o0, p = Settled t0 o0 /\ start + timer_delay ms < t0) ->
  fst (withTimeout p ms start tie tm) =
  (start + timer_delay ms, Rejected (clientTimeout ms)).
Proof.
  intros [-> | (t0 & o0 & -> & Hgt)]; rewrite withTimeout_settlement;
    [reflexivity |].
  unfold race.
  destruct (Z.ltb_spec t0 (start + timer_delay ms)) as [Hlt | _]; [lia |].
  destruct (Z.ltb_spec (start + timer_delay ms) t0) as [_ | Hle];
    [reflexivity | lia].
Qed.



End TimeoutFacts.

Module CallFacts.
Import Retry Timeout Samples.

Lemma retry_sequence_total cfg up req w :
  exists p st, retry_sequence cfg up req w = Some (p, st).
Proof. apply RetryFacts.withRetry_total. Qed.

(** [callOpenAIChat] always returns: its retry loop ends, and the race
    settles even when the loop's promise does not. *)
Lemma callOpenAIChat_total cfg up req w :
  exists r w' st,
    callOpenAIChat cfg up req w = Some (r, w')
    /\ invoked w' = invoked w ++ [(req, st)].
Proof.
  unfold callOpenAIChat.
  destruct (retry_sequence_total cfg up req w) as (p & st & ->).
  destruct (withTimeout p _ _ _ _) as [[t o] tm].
  eexists; eexists; exists st. split; reflexivity.
Qed.

(** C4.  The race of [callOpenAIChat] is against the whole retry sequence.
    For a timeout [OPENAI_TIMEOUT_MS >= 1]: when the time of the invocations
    made plus the time slept between them exceeds the timeout, the caller
    gets the client-timeout error, when the timer fires and no later than
    the timeout after the start, however short each invocation is and
    whatever errors the invocations ended with; when the sequence settles
    within a timeout of at most 2147483647 the caller gets its outcome. *)
Theorem timeout_wraps_retry_sequence (cfg : config) (up : upstream)
        (req : request) (w : world) :
  1 <= OPENAI_TIMEOUT_MS cfg ->
  exists p st,
    retry_sequence cfg up req w = Some (p, st)
    /\ (OPENAI_TIMEOUT_MS cfg < elapsed up req w st ->
        exists w',
          callOpenAIChat cfg up req w =
          Some (Rejected (clientTimeout (OPENAI_TIMEOUT_MS cfg)), w')
          /\ now w' = now w + timer_delay (OPENAI_TIMEOUT_MS cfg)
          /\ now w' <= now w + OPENAI_TIMEOUT_MS cfg)
    /\ (forall t o,
          p = Settled t o ->
          OPENAI_TIMEOUT_MS cfg <= 2147483647 ->
          elapsed up req w st < OPENAI_TIMEOUT_MS cfg ->
          exists w', callOpenAIChat cfg up req w = Some (o, w')
                     /\ now w' = t).
Proof.
  intros Hms.
  destruct (TimeoutFacts.timer_delay_bounds (OPENAI_TIMEOUT_MS cfg))
    as [_ Hdelay]. specialize (Hdelay Hms).
  destruct (retry_sequence_total cfg up req w) as (p & st & H).
  exists p, st. split; [exact H |].
  unfold callOpenAIChat. rewrite H.
  unfold retry_sequence in H.
  pose proof (ClockFacts.withRetry_clock _ _ _ _ _ _ H) as Hc.
  unfold elapsed.
  destruct (withTimeout p (OPENAI_TIMEOUT_MS cfg) (now w)
                        (tie up (call_index w)) (timer_table w))
    as [[t o] tm] eqn:E.
  split.
  - intros Hlate.
    assert (Hto : (t, o) = (now w + timer_delay (OPENAI_TIMEOUT_MS cfg),
                            Rejected (clientTimeout (OPENAI_TIMEOUT_MS cfg)))).
    { change (t, o) with (fst (t, o, tm)). rewrite <- E.
      apply TimeoutFacts.withTimeout_late.
      destruct p as [t0 o0 |]; [right | now left].
      apply ClockFacts.withRetry_settled_at in H as Ht0.
      exists t0, o0. split; [reflexivity | lia]. }
    inversion Hto; subst t o. eexists.
    split; [reflexivity | cbn [now]; split; [reflexivity | lia]].
  - intros t0 o0 Hp Hmax Hearly. subst p.
    apply ClockFacts.withRetry_settled_at in H as Ht0.
    assert (Hto : (t, o) = (t0, o0)).
    { change (t, o) with (fst (t, o, tm)). rewrite <- E.
      apply TimeoutFacts.withTimeout_early; [reflexivity |].
      rewrite TimeoutFacts.timer_delay_in_range by (unfold TIMEOUT_MAX; lia).
      lia. }
    inversion Hto; subst t o. eexists; split; reflexivity.
Qed.

Lemma timeout_wraps_retry_sequence_witness :
  (forall k, exists o, create overloaded 0 question k = Settles 8000 o)
  /\ 8000 < OPENAI_TIMEOUT_MS default_config
  /\ exists w',
       callOpenAIChat default_config overloaded question boot =
       Some (Rejected (clientTimeout (OPENAI_TIMEOUT_MS default_config)), w')
       /\ now w' = now boot + timer_delay (OPENAI_TIMEOUT_MS default_config)
       /\ now w' <= now boot + OPENAI_TIMEOUT_MS default_config.
Proof.
  split; [intros k; eexists; reflexivity |].
  split; [reflexivity |].
  destruct (timeout_wraps_retry_sequence default_config overloaded question
                                         boot)
    as (p & st & H & Hlate & _); [cbn; lia |].
  apply Hlate.
  vm_compute in H. inversion H; subst. reflexivity.
Defined.
End CallFacts.

(** * Properties of the output trimming *)

Module TrimFacts.

Lemma substring_all n : forall s,
  (String.length s <= n)%nat -> substring 0 n s = s.
Proof.
  induction n as [| n IH]; intros [| c s] H; cbn in *; try reflexivity; try lia.
  f_equal. apply IH. lia.
Qed.

Lemma substring_length n : forall s,
  (n <= String.length s)%nat -> String.length (substring 0 n s) = n.
Proof.
  induction n as [| n IH]; intros [| c s] H; cbn in *; try reflexivity; try lia.
  f_equal. apply IH. lia.
Qed.

Lemma substring_prefix n : forall s, prefix (substring 0 n s) s = true.
Proof.
  induction n as [| n IH]; intros [| c s]; cbn; try reflexivity.
  destruct (ascii_dec c c) as [_ | N]; [apply IH | now elim N].
Qed.

Lemma substring_get n : forall s i,
  (i < n)%nat -> get i (substring 0 n s) = get i s.
Proof.
  induction n as [| n IH]; intros [| c s] i H; cbn; try reflexivity; try lia.
  destruct i as [| i]; [reflexivity |]. apply IH. lia.
Qed.

(** C8.  [trimForTwitch] returns a text of at most 1000 units unchanged,
    and cuts a longer text to its first 1000 units: the result has length
    1000, is a prefix of the text and agrees with it at every position
    below 1000. *)
Theorem trimForTwitch_spec (text : string) :
  ((String.length text <= 1000)%nat -> trimForTwitch text = text)
  /\ ((1000 < String.length text)%nat ->
      trimForTwitch text = substring 0 1000 text
      /\ String.length (trimForTwitch text) = 1000%nat
      /\ prefix (trimForTwitch text) text = true
      /\ forall i, (i < 1000)%nat -> get i (trimForTwitch text) = get i text).
Proof.
  unfold trimForTwitch.
  destruct (String.eqb_spec text "") as [-> | Hne].
  - split; [reflexivity |]. cbn [String.length]. lia.
  - destruct (Nat.leb_spec (String.length text) 1000) as [Hle | Hgt].
    + split; [reflexivity | lia].
    + split; [lia |]. intros _.
      split; [reflexivity |].
      split; [apply substring_length; lia |].
      split; [apply substring_prefix |].
      intros i Hi. now apply substring_get.
Qed.

Lemma trimForTwitch_spec_witness :
  (String.length "Kappa" <= 1000)%nat /\ trimForTwitch "Kappa" = "Kappa".
Proof.
  split; [cbn [String.length]; lia |].
  apply (proj1 (trimForTwitch_spec "Kappa")). cbn [String.length]. lia.
Defined.
End TrimFacts.

(** * Properties of the route *)

Module RouteFacts.
Import Route Samples.

(** What the orchestration does, call by call. *)
Lemma with_fallback_spec cfg up (mk : string -> request) w :
  exists r1 w1 st1,
    callOpenAIChat cfg up (mk (OPENAI_MODEL cfg)) w = Some (r1, w1)
    /\ invoked w1 = invoked w ++ [(mk (OPENAI_MODEL cfg), st1)]
    /\ match r1 with
       | Resolved c => with_fallback cfg up mk w = Some (Resolved c, w1)
       | Rejected e1 =>
           (use_fallback cfg = false ->
            with_fallback cfg up mk w = Some (Rejected e1, w1))
           /\ (use_fallback cfg = true ->
               exists r2 w2 st2,
                 callOpenAIChat cfg up (mk (FALLBACK_MODEL cfg)) w1
                 = Some (r2, w2)
                 /\ invoked w2 =
                    invoked w ++ [(mk (OPENAI_MODEL cfg), st1);
                                  (mk (FALLBACK_MODEL cfg), st2)]
                 /\ with_fallback cfg up mk w = Some (r2, w2))
       end.
Proof.
  unfold with_fallback.
  destruct (CallFacts.callOpenAIChat_total cfg up (mk (OPENAI_MODEL cfg)) w)
    as (r1 & w1 & st1 & E1 & I1).
  exists r1, w1, st1. rewrite E1. split; [reflexivity |]. split; [exact I1 |].
  destruct r1 as [c | e1]; [reflexivity |].
  split; intros ->; [reflexivity |].
  destruct (CallFacts.callOpenAIChat_total cfg up (mk (FALLBACK_MODEL cfg)) w1)
    as (r2 & w2 & st2 & E2 & I2).
  exists r2, w2, st2. split; [exact E2 |]. split; [| exact E2].
  rewrite I2, I1, <- app_assoc. reflexivity.
Qed.

Lemma with_fallback_total cfg up mk w :
  exists r w1, with_fallback cfg up mk w = Some (r, w1).
Proof.
  destruct (with_fallback_spec cfg up mk w) as (r1 & w1 & st1 & _ & _ & H).
  destruct r1 as [c | e1]; [eexists; eexists; exact H |].
  destruct H as [Hno Hyes].
  destruct (use_fallback cfg).
  - destruct (Hyes eq_refl) as (r2 & w2 & _ & _ & _ & ->).
    eexists; eexists; reflexivity.
  - rewrite (Hno eq_refl). eexists; eexists; reflexivity.
Qed.

(** The route replies from the outcome of the orchestrated call; in
    multi-turn mode the conversation keeps the user exchange either way and
    gains the assistant exchange on success only. *)
Lemma handler_outcome cfg up text res srv w :
  exists r w1,
    with_fallback cfg up (payload cfg text srv) w = Some (r, w1)
    /\ handler cfg up text res srv w =
       Some (reply_to r res, after_request cfg text srv r, w1).
Proof.
  destruct (with_fallback_total cfg up (payload cfg text srv) w)
    as (r & w1 & H).
  exists r, w1. split; [exact H |].
  unfold handler, payload, after_request, reply_to in *.
  destruct (String.eqb (GPT_MODE cfg) "CHAT"); rewrite H; now destruct r.
Qed.

Lemma use_fallback_iff cfg :
  use_fallback cfg = true <->
  FALLBACK_MODEL cfg <> "" /\ FALLBACK_MODEL cfg <> OPENAI_MODEL cfg.
Proof.
  unfold use_fallback. rewrite andb_true_iff, !negb_true_iff.
  split; intros [H1 H2]; split;
    try (apply String.eqb_neq; assumption);
    try (apply String.eqb_neq in H1; assumption);
    try (apply String.eqb_neq in H2; assumption).
Qed.

(** C3.  The route first calls [callOpenAIChat] with the primary model.  If
    that call resolves, it is the only call made and the reply is built from
    its completion.  If it rejects and a fallback model is configured
    (non-empty) and differs from the primary, exactly one further call is
    made, with the fallback model and the same payload, and the reply is
    built from that call: from its completion, or from its error, not the
    primary's.  If it rejects and there is no distinct fallback, no further
    call is made and the reply is built from the primary's error. *)
Theorem fallback_orchestration (cfg : config) (up : upstream) (text : string)
        (res : response) (srv : server) (w : world) :
  (use_fallback cfg = true <->
   FALLBACK_MODEL cfg <> "" /\ FALLBACK_MODEL cfg <> OPENAI_MODEL cfg)
  /\ exists r1 w1 st1,
      callOpenAIChat cfg up (payload cfg text srv (OPENAI_MODEL cfg)) w
      = Some (r1, w1)
      /\ invoked w1 = invoked w ++ [(payload cfg text srv (OPENAI_MODEL cfg), st1)]
      /\ match r1 with
         | Resolved c =>
             handler cfg up text res srv w =
             Some (on_success (agent_response c) res,
                   after_request cfg text srv r1, w1)
         | Rejected e1 =>
             (use_fallback cfg = false ->
              handler cfg up text res srv w =
              Some (on_failure e1 res, after_request cfg text srv r1, w1))
             /\ (use_fallback cfg = true ->
                 exists r2 w2 st2,
                   callOpenAIChat cfg up
                     (payload cfg text srv (FALLBACK_MODEL cfg)) w1
                   = Some (r2, w2)
                   /\ invoked w2 =
                      invoked w
                      ++ [(payload cfg text srv (OPENAI_MODEL cfg), st1);
                          (payload cfg text srv (FALLBACK_MODEL cfg), st2)]
                   /\ handler cfg up text res srv w =
                      Some (match r2 with
                            | Resolved c => on_success (agent_response c) res
                            | Rejected e2 => on_failure e2 res
                            end,
                            after_request cfg text srv r2, w2))
         end.
Proof.
  split; [apply use_fallback_iff |].
  destruct (with_fallback_spec cfg up (payload cfg text srv) w)
    as (r1 & w1 & st1 & E1 & I1 & H).
  destruct (handler_outcome cfg up text res srv w) as (r & w' & Hw & Hh).
  exists r1, w1, st1. split; [exact E1 |]. split; [exact I1 |].
  destruct r1 as [c | e1].
  - rewrite H in Hw. inversion Hw; subst. exact Hh.
  - destruct H as [Hno Hyes]. split.
    + intros Hf. rewrite (Hno Hf) in Hw. inversion Hw; subst. exact Hh.
    + intros Hf. destruct (Hyes Hf) as (r2 & w2 & st2 & E2 & I2 & Hwf).
      exists r2, w2, st2. split; [exact E2 |]. split; [exact I2 |].
      rewrite Hwf in Hw. inversion Hw; subst. exact Hh.
Qed.

Lemma fallback_orchestration_witness :
  exists w2 st1 st2,
    handler default_config picky "Hello?" None initial boot =
    Some (Some {| statusCode := 200; body := "hi" |},
          after_request default_config "Hello?" initial
                        (Resolved {| first_content := Some " hi " |}),
          w2)
    /\ invoked w2 =
       invoked boot
       ++ [(payload default_config "Hello?" initial "gpt-5", st1);
           (payload default_config "Hello?" initial "gpt-5-mini", st2)].
Proof.
  destruct (proj2 (fallback_orchestration default_config picky "Hello?" None
                                          initial boot))
    as (r1 & w1 & st1 & E1 & _ & H).
  vm_compute in E1. inversion E1; subst r1 w1; clear E1.
  destruct H as [_ Hyes].
  destruct (Hyes eq_refl) as (r2 & w2 & st2 & E2 & I2 & Hh).
  assert (Hr2 : r2 = Resolved {| first_content := Some " hi " |}).
  { vm_compute in E2. now inversion E2. }
  subst r2.
  exists w2, st1, st2. split; [exact Hh | exact I2].
Defined.

(** C7.  The reply to a failed request has status 503 when the status of the
    error ([err.status || err.response.status]) is one of 429, 500, 502, 503,
    504, and status 500 for every other error, the client timeout among
    them; its body names the status of the error when there is one, and the
    status of the reply otherwise.  The reply goes out unless a response has
    been sent already. *)
Theorem failure_status_mapping (cfg : config) (up : upstream) (text : string)
        (srv : server) (w : world) (err : error) (w1 : world) :
  with_fallback cfg up (payload cfg text srv) w = Some (Rejected err, w1) ->
  handler cfg up text None srv w =
  Some (Some {| statusCode := httpStatus err; body := failure_body err |},
        after_request cfg text srv (Rejected err), w1)
  /\ (forall sent, handler cfg up text (Some sent) srv w =
                   Some (Some sent, after_request cfg text srv (Rejected err), w1))
  /\ ((exists s, status_of err = Some s /\ In s [429; 500; 502; 503; 504]) ->
      httpStatus err = 503)
  /\ (~ (exists s, status_of err = Some s /\ In s [429; 500; 502; 503; 504]) ->
      httpStatus err = 500)
  /\ (forall ms, err = Timeout.clientTimeout ms -> httpStatus err = 500)
  /\ (forall s, status_of err = Some s -> s <> 0 ->
                failure_body err =
                ("AI backend temporarily unavailable (status=" ++ Js.show s
                   ++ "). Details: " ++ detail_of err)%string)
  /\ (Js.truthy_num (status_of err) = false ->
      failure_body err =
      ("AI backend temporarily unavailable (status="
         ++ Js.show (httpStatus err) ++ "). Details: " ++ detail_of err)%string).
Proof.
  intros H.
  destruct (handler_outcome cfg up text None srv w) as (r & w' & Hw & Hh).
  rewrite H in Hw. inversion Hw; subst r w'; clear Hw.
  split; [exact Hh |]. split.
  { intros sent.
    destruct (handler_outcome cfg up text (Some sent) srv w) as (r & w' & Hw & Hs).
    rewrite H in Hw. inversion Hw; subst r w'. exact Hs. }
  unfold httpStatus, upstreamStatuses.
  split; [| split; [| split; [| split]]].
  - intros Hin. apply RetryFacts.has_num_In in Hin. now rewrite Hin.
  - intros Hnot.
    destruct (Js.has_num _ (status_of err)) eqn:E; [| reflexivity].
    apply RetryFacts.has_num_In in E. contradiction.
  - intros ms ->. reflexivity.
  - intros s Hs Hnz. unfold failure_body, Js.or_num. rewrite Hs.
    cbn [Js.truthy_num]. apply Z.eqb_neq in Hnz. rewrite Hnz.
    reflexivity.
  - intros Hf. unfold failure_body, Js.or_num. rewrite Hf. reflexivity.
Qed.

Lemma failure_status_mapping_witness :
  exists w1,
    handler default_config struggling "Hello?" None initial boot =
    Some (Some {| statusCode := 503;
                  body := "AI backend temporarily unavailable (status=503). Details: Service Unavailable" |},
          after_request default_config "Hello?" initial (Rejected unavailable),
          w1).
Proof.
  destruct (with_fallback default_config struggling
              (payload default_config "Hello?" initial) boot)
    as [[r w1] |] eqn:E; [| vm_compute in E; discriminate].
  exists w1.
  assert (Hr : r = Rejected unavailable).
  { vm_compute in E. now inversion E. }
  subst r.
  apply (failure_status_mapping default_config struggling "Hello?" initial boot
           unavailable w1 E).
Defined.
End RouteFacts.

(** * Properties of the conversation *)

Module WindowFacts.
Import Route Samples.

Lemma turns_app ps qs : turns (ps ++ qs) = turns ps ++ turns qs.
Proof. unfold turns. apply flat_map_app. Qed.

Lemma turns_length ps : List.length (turns ps) = (2 * List.length ps)%nat.
Proof.
  induction ps as [| p ps IH]; [reflexivity |].
  cbn [turns flat_map List.length app] in *. fold (turns ps). lia.
Qed.

Lemma recent_length {A} h (ps : list A) :
  List.length (recent h ps) = Nat.min (List.length ps) h.
Proof.
  unfold recent. rewrite length_skipn.
  destruct (Nat.le_gt_cases (List.length ps) h) as [Hle | Hgt].
  - rewrite Nat.min_l by lia. lia.
  - rewrite Nat.min_r by lia. lia.
Qed.

Lemma recent_all {A} h (ps : list A) :
  (List.length ps <= h)%nat -> recent h ps = ps.
Proof.
  intros H. unfold recent.
  replace (List.length ps - h)%nat with 0%nat by lia. reflexivity.
Qed.

Lemma recent_snoc {A} h (ps : list A) (x : A) :
  recent h (recent h ps ++ [x]) = recent h (ps ++ [x]).
Proof.
  destruct (Nat.le_gt_cases (List.length ps) h) as [Hle | Hgt].
  - now rewrite (recent_all h ps Hle).
  - unfold recent at 1 3.
    rewrite !length_app, recent_length. cbn [List.length].
    rewrite Nat.min_r by lia.
    replace (h + 1 - h)%nat with 1%nat by lia.
    replace (List.length ps + 1 - h)%nat with (1 + (List.length ps - h))%nat by lia.
    unfold recent.
    rewrite !skipn_app, length_skipn.
    replace (1 - (List.length ps - (List.length ps - h)))%nat with (1 - h)%nat by lia.
    replace (1 + (List.length ps - h) - List.length ps)%nat with (1 - h)%nat by lia.
    rewrite skipn_skipn. reflexivity.
Qed.

(** One successful request on a conversation of at most [h] whole pairs. *)
Lemma cycle_window cfg (h : nat) sys ps qa :
  HISTORY_LENGTH cfg = Z.of_nat h -> (1 <= h)%nat ->
  (List.length ps <= h)%nat ->
  cycle cfg (sys :: turns ps) qa = sys :: turns (recent h (ps ++ [qa])).
Proof.
  intros HH Hpos Hlen. unfold cycle, push_user, push_assistant.
  rewrite HH, length_app. cbn [List.length]. rewrite turns_length.
  rewrite Z.gtb_ltb.
  destruct (Z.ltb_spec (Z.of_nat h * 2 + 1)
                       (Z.of_nat (S (2 * List.length ps) + 1)))
    as [Hevict | Hkeep].
  - assert (Hfull : List.length ps = h) by lia.
    destruct ps as [| p ps]; [cbn in Hfull; lia |].
    unfold recent. rewrite length_app. cbn [List.length].
    replace (S (List.length ps) + 1 - h)%nat with 1%nat by (cbn in Hfull; lia).
    cbn [turns flat_map app splice firstn skipn Nat.add].
    fold (turns ps). fold (turns (ps ++ [qa])).
    rewrite turns_app. cbn [turns flat_map app].
    rewrite <- app_assoc. reflexivity.
  - rewrite recent_all by (rewrite length_app; cbn [List.length]; lia).
    rewrite turns_app. cbn [turns flat_map app].
    rewrite <- app_assoc. reflexivity.
Qed.

(** After any number of successful requests the conversation is the system
    exchange followed by the [h] most recent pairs, whole and in order. *)
Lemma cycles_window cfg (h : nat) sys pairs :
  HISTORY_LENGTH cfg = Z.of_nat h -> (1 <= h)%nat ->
  fold_left (cycle cfg) pairs [sys] = sys :: turns (recent h pairs).
Proof.
  intros HH Hpos. induction pairs as [| qa pairs IH] using rev_ind.
  - reflexivity.
  - rewrite fold_left_app. cbn [fold_left]. rewrite IH.
    rewrite (cycle_window cfg h) by (rewrite ?recent_length; lia).
    now rewrite recent_snoc.
Qed.

Lemma httpStatus_not_200 err : httpStatus err <> 200.
Proof. unfold httpStatus. destruct (Js.has_num _ _); discriminate. Qed.

(** A request answered with status 200 has run one whole cycle. *)
Lemma handler_ok_cycle cfg up text srv w res srv1 w1 :
  GPT_MODE cfg = "CHAT" ->
  handler cfg up text None srv w = Some (res, srv1, w1) ->
  is_ok res ->
  exists a, messages srv1 = cycle cfg (messages srv) (text, a).
Proof.
  intros Hmode H [b Hb].
  destruct (RouteFacts.handler_outcome cfg up text None srv w)
    as (r & w' & _ & Hh).
  rewrite Hh in H. inversion H as [[Hres Hsrv Hw]]; clear H.
  unfold after_request. rewrite Hmode. cbn [String.eqb Ascii.eqb Bool.eqb].
  destruct r as [c | err].
  - exists (agent_response c). reflexivity.
  - rewrite <- Hres in Hb.
    cbn [reply_to on_failure send] in Hb. inversion Hb as [[Hs Hbody]].
    now apply httpStatus_not_200 in Hs.
Qed.

Lemma serve_cycles cfg up : forall texts srv w ress srv' w',
  GPT_MODE cfg = "CHAT" ->
  serve cfg up texts srv w = Some (ress, srv', w') ->
  Forall is_ok ress ->
  exists answers,
    List.length answers = List.length texts
    /\ messages srv' =
       fold_left (cycle cfg) (combine texts answers) (messages srv).
Proof.
  induction texts as [| text texts IH]; intros srv w ress srv' w' Hmode H Hok.
  - cbn in H. inversion H; subst. now exists [].
  - cbn [serve] in H.
    destruct (handler cfg up text None srv w) as [[[res srv1] w1] |] eqn:Hh;
      [| discriminate].
    destruct (serve cfg up texts srv1 w1) as [[[ress1 srv2] w2] |] eqn:Hs;
      [| discriminate].
    inversion H; subst; clear H.
    inversion Hok as [| ? ? Hres Hrest]; subst.
    destruct (handler_ok_cycle _ _ _ _ _ _ _ _ Hmode Hh Hres) as [a Ha].
    destruct (IH _ _ _ _ _ Hmode Hs Hrest) as (answers & Hlen & Hm).
    exists (a :: answers). split; [cbn; lia |].
    cbn [combine fold_left]. now rewrite <- Ha.
Qed.

(** The sliding window for every window of at least one pair: after [N]
    requests answered with status 200, the conversation is the system
    exchange followed by the [min N h] most recent (user, assistant) pairs,
    whole and in order, hence of length [1 + 2 * min N h]. *)
Theorem conversation_window cfg up (h : nat) texts sys fc w ress srv' w' :
  GPT_MODE cfg = "CHAT" ->
  HISTORY_LENGTH cfg = Z.of_nat h -> (1 <= h)%nat ->
  serve cfg up texts {| messages := [sys]; file_context := fc |} w
  = Some (ress, srv', w') ->
  Forall is_ok ress ->
  exists answers,
    List.length answers = List.length texts
    /\ messages srv' = sys :: turns (recent h (combine texts answers))
    /\ List.length (messages srv')
       = (1 + 2 * Nat.min (List.length texts) h)%nat.
Proof.
  intros Hmode HH Hpos Hs Hok.
  destruct (serve_cycles _ _ _ _ _ _ _ _ Hmode Hs Hok) as (answers & Hlen & Hm).
  exists answers. split; [exact Hlen |].
  cbn [messages] in Hm. rewrite (cycles_window cfg h sys _ HH Hpos) in Hm.
  split; [exact Hm |].
  rewrite Hm. cbn [List.length]. rewrite turns_length, recent_length.
  rewrite length_combine, Hlen, Nat.min_id. lia.
Qed.

Lemma conversation_window_witness :
  exists answers,
    messages
      (snd (fst (match serve (with_history 2) helpful ["one"; "two"; "three"]
                               initial boot with
                 | Some out => out
                 | None => ([], initial, boot)
                 end)))
    = {| ex_role := system; content := default_prompt |}
        :: turns (recent 2 (combine ["one"; "two"; "three"] answers)).
Proof.
  destruct (serve (with_history 2) helpful ["one"; "two"; "three"] initial boot)
    as [[[ress srv'] w'] |] eqn:E; [| vm_compute in E; discriminate].
  destruct (conversation_window (with_history 2) helpful 2
              ["one"; "two"; "three"]
              {| ex_role := system; content := default_prompt |}
              default_prompt boot ress srv' w')
    as (answers & _ & Hm & _);
    [reflexivity | reflexivity | lia | exact E | |].
  - vm_compute in E. inversion E; subst.
    repeat constructor; eexists; reflexivity.
  - exists answers. exact Hm.
Defined.

(** C6 at a window of zero pairs: the first request evicts the user exchange
    it has just appended, so the payload sent upstream is the system exchange
    alone, and the conversation ends with the system exchange and a lone
    assistant exchange, of length 2 instead of [1 + 2 * min 1 0 = 1]; the
    second request then evicts that assistant exchange together with the new
    user exchange. *)
Theorem zero_window_breaks_pairing :
  exists w1 w2 st1 st2,
    serve (with_history 0) helpful ["What is 2+2?"] initial boot
    = Some ([Some {| statusCode := 200; body := "hi" |}],
            {| messages := [ {| ex_role := system; content := default_prompt |};
                             {| ex_role := assistant; content := "hi" |} ];
               file_context := default_prompt |},
            w1)
    /\ invoked w1 =
       [({| model := "gpt-5";
            msgArray := [ {| ex_role := system; content := default_prompt |} ];
            temperature := 1 # 2;
            maxTokens := 592 |}, st1)]
    /\ 1 + 2 * Z.min 1 (HISTORY_LENGTH (with_history 0)) = 1
    /\ push_user (with_history 0) "And 3+3?"
                 [ {| ex_role := system; content := default_prompt |};
                   {| ex_role := assistant; content := "hi" |} ]
       = [ {| ex_role := system; content := default_prompt |} ]
    /\ serve (with_history 0) helpful ["What is 2+2?"; "And 3+3?"] initial boot
       = Some ([Some {| statusCode := 200; body := "hi" |};
                Some {| statusCode := 200; body := "hi" |}],
               {| messages := [ {| ex_role := system; content := default_prompt |};
                                {| ex_role := assistant; content := "hi" |} ];
                  file_context := default_prompt |},
               w2)
    /\ nth_error (invoked w2) 1 =
       Some ({| model := "gpt-5";
                msgArray := [ {| ex_role := system; content := default_prompt |} ];
                temperature := 1 # 2;
                maxTokens := 592 |}, st2).
Proof.
  do 4 eexists.
  split; [vm_compute; reflexivity |].
  split; [reflexivity |].
  split; [reflexivity |].
  split; [reflexivity |].
  split; [vm_compute; reflexivity |].
  reflexivity.
Qed.

(** C10.  In multi-turn mode a request whose upstream call fails, fallback
    included, leaves in the conversation exactly what appending the user
    exchange and the eviction produced: nothing is rolled back, whatever the
    state of the response.  So a failed request on a conversation below its
    bound leaves it ending in the user exchange, without an assistant
    exchange; and with a window of one pair, two failed requests leave two
    user exchanges at positions 1 and 2, which the eviction of the third
    request removes together. *)
Theorem failed_request_keeps_user_exchange (cfg : config) (up : upstream)
        (text : string) (res : response) (srv : server) (w : world)
        (err : error) (w1 : world) :
  GPT_MODE cfg = "CHAT" ->
  with_fallback cfg up (payload cfg text srv) w = Some (Rejected err, w1) ->
  handler cfg up text res srv w =
  Some (on_failure err res,
        {| messages := push_user cfg text (messages srv);
           file_context := file_context srv |},
        w1)
  /\ (Z.of_nat (List.length (messages srv)) < HISTORY_LENGTH cfg * 2 + 1 ->
      push_user cfg text (messages srv) =
      messages srv ++ [ {| ex_role := user; content := text |} ])
  /\ (exists ress w2,
        serve (with_history 1) locked_out ["one"; "two"] initial boot
        = Some (ress,
                {| messages :=
                     [ {| ex_role := system; content := default_prompt |};
                       {| ex_role := user; content := "one" |};
                       {| ex_role := user; content := "two" |} ];
                   file_context := default_prompt |},
                w2))
  /\ push_user (with_history 1) "three"
               [ {| ex_role := system; content := default_prompt |};
                 {| ex_role := user; content := "one" |};
                 {| ex_role := user; content := "two" |} ]
     = [ {| ex_role := system; content := default_prompt |};
         {| ex_role := user; content := "three" |} ].
Proof.
  intros Hmode H.
  split; [| split; [| split]].
  - destruct (RouteFacts.handler_outcome cfg up text res srv w)
      as (r & w' & Hw & Hh).
    rewrite H in Hw. inversion Hw; subst r w'. rewrite Hh.
    unfold after_request, reply_to. rewrite Hmode. reflexivity.
  - intros Hroom. unfold push_user. rewrite length_app. cbn [List.length].
    rewrite Z.gtb_ltb.
    destruct (Z.ltb_spec (HISTORY_LENGTH cfg * 2 + 1)
                         (Z.of_nat (List.length (messages srv) + 1)))
      as [Hevict | _]; [lia | reflexivity].
  - do 2 eexists. vm_compute. reflexivity.
  - reflexivity.
Qed.

Lemma failed_request_keeps_user_exchange_witness :
  exists res' w1,
    handler (with_history 1) locked_out "one" None initial boot =
    Some (res',
          {| messages := [ {| ex_role := system; content := default_prompt |};
                           {| ex_role := user; content := "one" |} ];
             file_context := default_prompt |},
          w1).
Proof.
  destruct (with_fallback (with_history 1) locked_out
              (payload (with_history 1) "one" initial) boot)
    as [[r w1] |] eqn:E; [| vm_compute in E; discriminate].
  assert (Hr : r = Rejected unauthorized).
  { vm_compute in E. now inversion E. }
  subst r.
  exists (on_failure unauthorized None), w1.
  apply (failed_request_keeps_user_exchange (with_history 1) locked_out "one"
           None initial boot unauthorized w1 eq_refl E).
Defined.
End WindowFacts.

(** * The end-to-end scenarios of the specification, run on the model *)

Module Scenarios.
Import Route Samples.

(** Window of two pairs, three answered queries: the system exchange and the
    last two pairs remain. *)
Example scenario_A :
  conversation_after
    (serve (with_history 2) helpful ["one"; "two"; "three"] initial boot)
  = Some [ {| ex_role := system; content := default_prompt |};
           {| ex_role := user; content := "two" |};
           {| ex_role := assistant; content := "hi" |};
           {| ex_role := user; content := "three" |};
           {| ex_role := assistant; content := "hi" |} ].
Proof. vm_compute. reflexivity. Qed.

(** Status 503 on every attempt, retry budget 2, no distinct fallback: three
    invocations, reply 503 naming the status. *)
Example scenario_B :
  let out := serve two_retries_no_fallback struggling ["Hello?"] initial boot in
  attempts_of out = Some [("gpt-5", 3%nat)]
  /\ replies_of out =
     Some [Some {| statusCode := 503;
                   body := "AI backend temporarily unavailable (status=503). Details: Service Unavailable" |}].
Proof. split; vm_compute; reflexivity. Qed.

(** Status 401 on the primary model, a fallback that answers: one invocation
    on the primary, then the fallback, reply 200 with its content. *)
Example scenario_C :
  let out := serve default_config picky ["Hello?"] initial boot in
  attempts_of out = Some [("gpt-5", 1%nat); ("gpt-5-mini", 1%nat)]
  /\ replies_of out = Some [Some {| statusCode := 200; body := "hi" |}].
Proof. split; vm_compute; reflexivity. Qed.

(** A reply of 1500 units is cut to its first 1000. *)
Example scenario_D :
  String.length long_reply = 1500%nat
  /\ String.length (trimForTwitch long_reply) = 1000%nat
  /\ trimForTwitch long_reply = substring 0 1000 long_reply.
Proof. repeat split; vm_compute; reflexivity. Qed.

End Scenarios.

(** * The [onRetry] log and the time a retry sequence takes *)

Module RetryLogFacts.
Import Retry RetryLog Samples.

Lemma loop_log {A} (fn : operation A) rnd o fuel : forall st p st',
  log_ok fn rnd o st ->
  loop fuel fn rnd o st = Some (p, st') ->
  calls st' = S (List.length (events st'))
  /\ forall k ev, nth_error (events st') k = Some ev -> reports fn rnd o k ev.
Proof.
  induction fuel as [| fuel IH]; intros st p st' (Ha & Hc & Hev) H;
    [discriminate |].
  cbn [loop] in H.
  destruct (fn (calls st)) as [d [v | err] |] eqn:F.
  - inversion H; subst; clear H. cbn [calls events]. now split; [f_equal |].
  - destruct (decide o (S (attempt st)) err _) eqn:D.
    + inversion H; subst; clear H. cbn [calls events]. now split; [f_equal |].
    + apply RetryFacts.decide_retry in D as (_ & _ & ->).
      apply IH in H; [exact H |].
      unfold log_ok. cbn [attempt calls events].
      rewrite length_app. cbn [List.length].
      split; [lia |]. split; [lia |].
      intros k ev Hk.
      destruct (Nat.lt_ge_cases k (List.length (events st))) as [Hlt | Hge].
      * rewrite nth_error_app1 in Hk by exact Hlt. now apply Hev.
      * rewrite nth_error_app2 in Hk by exact Hge.
        destruct (k - List.length (events st))%nat as [| j] eqn:Ek;
          [| destruct j; discriminate].
        assert (k = List.length (events st)) by lia. subst k.
        cbn in Hk. inversion Hk; subst ev; clear Hk.
        exists d, err. rewrite <- Hc. split; [exact F |].
        rewrite Ha, Hc. reflexivity.
  - inversion H; subst; clear H. cbn [calls events]. now split; [f_equal |].
Qed.

Lemma onRetry_log_aux {A} (fn : operation A) rnd o start p st :
  withRetry fn rnd o start = Some (p, st) ->
  calls st = S (List.length (events st))
  /\ forall k ev, nth_error (events st) k = Some ev -> reports fn rnd o k ev.
Proof.
  intros H. unfold withRetry in H.
  apply loop_log in H; [exact H |].
  unfold log_ok. cbn. repeat split. intros [| k] ev Hk; discriminate.
Qed.

(** X1.  [withRetry] notifies [onRetry] once after every invocation of [fn]
    but the last, so the invocations are one more than the events; the
    [k]-th event (from 0) carries the attempt number [k + 1], the status,
    code and message of the error the [k]-th invocation failed with, and the
    delay computed for that attempt from the [k]-th draw. *)
Theorem onRetry_log {A} (fn : operation A) (rnd : nat -> Q) (o : options)
        (start : Z) (p : promise A) (st : state) :
  withRetry fn rnd o start = Some (p, st) ->
  calls st = S (List.length (events st))
  /\ forall k ev, nth_error (events st) k = Some ev -> reports fn rnd o k ev.
Proof.
  apply onRetry_log_aux.
Qed.

Lemma onRetry_log_witness :
  exists p st,
    withRetry (always unavailable) (fun _ => 1 # 2) defaults 0 = Some (p, st)
    /\ calls st = S (List.length (events st)).
Proof.
  destruct (withRetry (always unavailable) (fun _ => 1 # 2) defaults 0)
    as [[p st] |] eqn:E; [| vm_compute in E; discriminate].
  exists p, st. split; [reflexivity |].
  apply (onRetry_log (always unavailable) (fun _ => 1 # 2) defaults 0 p st E).
Defined.





End RetryLogFacts.

(** * A 503 reply and the retry budget *)

Module BudgetFacts.
Import Retry RetryLog Timeout Route Samples.

(** A retriable error comes out of [withRetry] only with the budget spent. *)
Lemma retriable_rejection_spends_budget {A} (fn : operation A) rnd o start t
      err st :
  0 <= retries o ->
  withRetry fn rnd o start = Some (Settled t (Rejected err), st) ->
  retriable err = true ->
  Z.of_nat (calls st) = retries o + 1.
Proof.
  intros HR H Hret. unfold withRetry in H.
  apply RetryFacts.loop_spec in H as (H1 & H2 & _ & H4 & H5).
  unfold last_call_settles, failures_counted in *.
  cbn [init calls attempt] in *.
  destruct (fn (pred (calls st))) as [d [v | e] |].
  - inversion H4.
  - destruct H4 as [E H4]. inversion E; subst e.
    destruct H4 as [H4 | H4]; [congruence |]. unfold enough in *. lia.
  - discriminate.
Qed.

(** An error out of [callOpenAIChat] is the client timeout or the error the
    retry sequence settled with. *)
Lemma callOpenAIChat_rejected cfg up req w err w' :
  callOpenAIChat cfg up req w = Some (Rejected err, w') ->
  err = clientTimeout (OPENAI_TIMEOUT_MS cfg)
  \/ exists t st,
       retry_sequence cfg up req w = Some (Settled t (Rejected err), st)
       /\ invoked w' = invoked w ++ [(req, st)].
Proof.
  unfold callOpenAIChat.
  destruct (retry_sequence cfg up req w) as [[p st] |]; [| discriminate].
  pose proof (TimeoutFacts.withTimeout_settlement p (OPENAI_TIMEOUT_MS cfg)
                (now w) (tie up (call_index w)) (timer_table w)) as Hs.
  destruct (withTimeout p _ _ _ _) as [[t o] tm]. cbn [fst] in Hs.
  intros H. inversion H; subst o w'; clear H. cbn [invoked].
  destruct p as [t0 o0 |].
  - destruct (race _ _ _).
    + inversion Hs; subst. right. now exists t0, st.
    + inversion Hs. now left.
  - inversion Hs. now left.
Qed.

Lemma upstream_status_retriable err :
  httpStatus err = 503 -> retriable err = true.
Proof.
  unfold httpStatus, retriable.
  destruct (Js.has_num upstreamStatuses (status_of err)) eqn:E; [| discriminate].
  intros _. apply RetryFacts.has_num_In in E as (s & Hs & Hin).
  apply orb_true_iff. left. apply RetryFacts.has_num_In. exists s.
  split; [exact Hs |].
  unfold upstreamStatuses, retriableStatuses in *. cbn in *.
  intuition.
Qed.

(** X3.  With [OPENAI_RETRIES >= 0], a reply with status 503 is sent only
    after the last model tried has been invoked [OPENAI_RETRIES + 1] times,
    with [OPENAI_RETRIES] retry events: every status answered with 503 is a
    retriable one, and the client timeout is answered with 500. *)
Theorem unavailable_reply_spends_budget (cfg : config) (up : upstream)
        (text : string) (srv : server) (w : world) (b : string)
        (srv' : server) (w' : world) :
  0 <= OPENAI_RETRIES cfg ->
  handler cfg up text None srv w
  = Some (Some {| statusCode := 503; body := b |}, srv', w') ->
  exists earlier req st,
    invoked w' = earlier ++ [(req, st)]
    /\ Z.of_nat (calls st) = OPENAI_RETRIES cfg + 1
    /\ List.length (events st) = Z.to_nat (OPENAI_RETRIES cfg).
Proof.
  intros HR H.
  destruct (RouteFacts.handler_outcome cfg up text None srv w)
    as (r & w1 & Hw & Hh).
  rewrite Hh in H. inversion H as [[Hres Hsrv Hw1]]; subst w1; clear H.
  destruct r as [c | err]; [discriminate |].
  cbn [reply_to on_failure send] in Hres. inversion Hres as [[Hst Hb]].
  apply upstream_status_retriable in Hst as Hret.
  assert (Hcall : exists req w0,
             callOpenAIChat cfg up req w0 = Some (Rejected err, w')).
  { destruct (RouteFacts.with_fallback_spec cfg up (payload cfg text srv) w)
      as (r1 & w1 & st1 & E1 & _ & Hr1).
    destruct r1 as [c | e1]; [rewrite Hr1 in Hw; discriminate |].
    destruct Hr1 as [Hno Hyes].
    destruct (use_fallback cfg).
    - destruct (Hyes eq_refl) as (r2 & w2 & st2 & E2 & _ & Hf).
      rewrite Hf in Hw. inversion Hw; subst. do 2 eexists; eassumption.
    - rewrite (Hno eq_refl) in Hw. inversion Hw; subst. do 2 eexists; eassumption. }
  destruct Hcall as (req & w0 & Hcall).
  apply callOpenAIChat_rejected in Hcall as [Hto | (t & st & Hseq & Hinv)].
  - subst err. discriminate.
  - exists (invoked w0), req, st. split; [exact Hinv |].
    unfold retry_sequence in Hseq.
    pose proof (retriable_rejection_spends_budget
                  _ _ (call_options cfg) _ _ _ _ HR Hseq Hret) as Hc.
    split; [exact Hc |].
    destruct (RetryLogFacts.onRetry_log_aux _ _ _ _ _ _ Hseq) as [Hn _].
    cbn [call_options retries] in Hc. lia.
Qed.

Lemma unavailable_reply_spends_budget_witness :
  exists earlier req st,
    invoked (snd (match handler two_retries_no_fallback struggling "Hello?"
                                None initial boot with
                  | Some out => out
                  | None => (None, initial, boot)
                  end))
    = earlier ++ [(req, st)]
    /\ Z.of_nat (calls st) = OPENAI_RETRIES two_retries_no_fallback + 1.
Proof.
  destruct (handler two_retries_no_fallback struggling "Hello?" None initial
                    boot) as [[[res srv'] w'] |] eqn:E;
    [| vm_compute in E; discriminate].
  assert (Hres : res = Some {| statusCode := 503; body := failure_body unavailable |}).
  { vm_compute in E. inversion E. reflexivity. }
  subst res.
  destruct (unavailable_reply_spends_budget two_retries_no_fallback struggling
              "Hello?" initial boot (failure_body unavailable) srv' w')
    as (earlier & req & st & Hi & Hc & _); [cbn; lia | exact E |].
  exists earlier, req, st. split; [exact Hi | exact Hc].
Defined.
End BudgetFacts.

(** * Deadlines *)

Module DeadlineFacts.
Import Retry Timeout Route Samples.

Lemma callOpenAIChat_deadline cfg up req w r w' :
  callOpenAIChat cfg up req w = Some (r, w') ->
  now w' <= now w + timer_delay (OPENAI_TIMEOUT_MS cfg).
Proof.
  unfold callOpenAIChat.
  destruct (retry_sequence cfg up req w) as [[p st] |]; [| discriminate].
  pose proof (TimeoutFacts.withTimeout_settlement p (OPENAI_TIMEOUT_MS cfg)
                (now w) (tie up (call_index w)) (timer_table w)) as Hs.
  destruct (withTimeout p _ _ _ _) as [[t o] tm]. cbn [fst] in Hs.
  intros H. inversion H; subst; clear H. cbn [now].
  destruct p as [t0 o0 |]; [| inversion Hs; lia].
  unfold race in Hs.
  set (deadline := now w + timer_delay (OPENAI_TIMEOUT_MS cfg)) in *.
  destruct (Z.ltb_spec t0 deadline) as [Hlt | Hge].
  - inversion Hs. lia.
  - destruct (Z.ltb_spec deadline t0) as [Hgt | Hle].
    + inversion Hs. lia.
    + destruct (tie up (call_index w)); inversion Hs; lia.
Qed.

(** The call returns within its timeout, or within one millisecond when the
    timeout is zero. *)
Lemma callOpenAIChat_within cfg up req w r w' :
  0 <= OPENAI_TIMEOUT_MS cfg ->
  callOpenAIChat cfg up req w = Some (r, w') ->
  now w' <= now w + Z.max 1 (OPENAI_TIMEOUT_MS cfg).
Proof.
  intros Hms H. apply callOpenAIChat_deadline in H.
  destruct (TimeoutFacts.timer_delay_bounds (OPENAI_TIMEOUT_MS cfg))
    as [_ Hd].
  destruct (Z.eq_dec (OPENAI_TIMEOUT_MS cfg) 0) as [E | NE].
  - rewrite E in *. change (timer_delay 0) with 1 in H. lia.
  - assert (H1 : 1 <= OPENAI_TIMEOUT_MS cfg) by lia.
    specialize (Hd H1). lia.
Qed.

(** X5.  With [OPENAI_TIMEOUT_MS >= 0] the route always comes to reply: it
    makes one or two calls of [callOpenAIChat] and needs at most twice
    [OPENAI_TIMEOUT_MS] for them, and at most [OPENAI_TIMEOUT_MS] when there
    is no fallback model other than the primary; a timeout of 0 counts as
    the one millisecond its timer is armed for. *)
Theorem handler_deadline (cfg : config) (up : upstream) (text : string)
        (res : response) (srv : server) (w : world) :
  0 <= OPENAI_TIMEOUT_MS cfg ->
  exists res' srv' w',
    handler cfg up text res srv w = Some (res', srv', w')
    /\ now w' <= now w + 2 * Z.max 1 (OPENAI_TIMEOUT_MS cfg)
    /\ (use_fallback cfg = false ->
        now w' <= now w + Z.max 1 (OPENAI_TIMEOUT_MS cfg))
    /\ (1 <= List.length (invoked w') - List.length (invoked w) <= 2)%nat.
Proof.
  intros Hms.
  destruct (RouteFacts.handler_outcome cfg up text res srv w)
    as (r & w' & Hw & Hh).
  do 3 eexists. split; [exact Hh |].
  destruct (RouteFacts.with_fallback_spec cfg up (payload cfg text srv) w)
    as (r1 & w1 & st1 & E1 & I1 & Hr1).
  pose proof (callOpenAIChat_within _ _ _ _ _ _ Hms E1) as D1.
  destruct r1 as [c | e1].
  - rewrite Hr1 in Hw. inversion Hw; subst.
    rewrite I1, length_app. cbn [List.length]. repeat split; lia.
  - destruct Hr1 as [Hno Hyes].
    destruct (use_fallback cfg).
    + destruct (Hyes eq_refl) as (r2 & w2 & st2 & E2 & I2 & Hf).
      pose proof (callOpenAIChat_within _ _ _ _ _ _ Hms E2) as D2.
      rewrite Hf in Hw. inversion Hw; subst.
      rewrite I2, length_app. cbn [List.length].
      split; [lia | split; [discriminate | lia]].
    + rewrite (Hno eq_refl) in Hw. inversion Hw; subst.
      rewrite I1, length_app. cbn [List.length]. repeat split; lia.
Qed.

Lemma handler_deadline_witness :
  exists res' srv' w',
    handler default_config overloaded "Hello?" None initial boot
    = Some (res', srv', w')
    /\ now w' <= now boot + 2 * Z.max 1 (OPENAI_TIMEOUT_MS default_config).
Proof.
  destruct (handler_deadline default_config overloaded "Hello?" None initial
                             boot)
    as (res' & srv' & w' & H & Hb & _); [cbn; lia |].
  exists res', srv', w'. split; [exact H | exact Hb].
Defined.

(** A timeout of zero arms a timer of one millisecond: the two calls of a
    request against a slow upstream service end after two milliseconds. *)
Example zero_timeout_takes_two_milliseconds :
  option_map (fun out => now (snd out))
             (handler MoreSamples.no_time overloaded "Hello?" None initial boot)
  = Some 2.
Proof. vm_compute. reflexivity. Qed.

(** X4.  The timeout is a race, not a cancellation: with a timeout
    [OPENAI_TIMEOUT_MS >= 0], when every invocation fails with a retriable
    error, [callOpenAIChat] returns no later than [OPENAI_TIMEOUT_MS] after
    its start (one millisecond when the timeout is 0), and the retry
    sequence it started still makes all its [OPENAI_RETRIES + 1]
    invocations, however small the timeout is. *)
Theorem timeout_does_not_cancel (cfg : config) (up : upstream) (req : request)
        (w : world) :
  0 <= OPENAI_RETRIES cfg ->
  0 <= OPENAI_TIMEOUT_MS cfg ->
  (forall k, exists d e,
      create up (call_index w) req k = Settles d (Rejected e)
      /\ retriable e = true) ->
  exists r w' st,
    callOpenAIChat cfg up req w = Some (r, w')
    /\ invoked w' = invoked w ++ [(req, st)]
    /\ Z.of_nat (calls st) = OPENAI_RETRIES cfg + 1
    /\ now w' <= now w + Z.max 1 (OPENAI_TIMEOUT_MS cfg).
Proof.
  intros HR Hms Hall.
  destruct (CallFacts.retry_sequence_total cfg up req w) as (p & st & Hseq).
  assert (Hcalls : Z.of_nat (calls st) = OPENAI_RETRIES cfg + 1).
  { pose proof Hseq as H. unfold retry_sequence, withRetry in H.
    apply RetryFacts.loop_spec in H as (H1 & H2 & _ & H4 & H5).
    unfold last_call_settles, failures_counted, enough in *.
    cbn [init calls attempt call_options retries] in *.
    destruct (Hall (pred (calls st))) as (d & e & F & Hret).
    rewrite F in H4. destruct H4 as [-> H4].
    destruct H4 as [H4 | H4]; [congruence | lia]. }
  assert (Hcall : exists r w', callOpenAIChat cfg up req w = Some (r, w')
                               /\ invoked w' = invoked w ++ [(req, st)]).
  { unfold callOpenAIChat. rewrite Hseq.
    destruct (withTimeout p _ _ _ _) as [[t o] tm].
    do 2 eexists. split; reflexivity. }
  destruct Hcall as (r & w' & Hc & Hi).
  exists r, w', st. split; [exact Hc |]. split; [exact Hi |].
  split; [exact Hcalls |].
  now apply (callOpenAIChat_within cfg up req w r w').
Qed.

Lemma timeout_does_not_cancel_witness :
  exists r w' st,
    callOpenAIChat default_config overloaded question boot = Some (r, w')
    /\ invoked w' = invoked boot ++ [(question, st)]
    /\ Z.of_nat (calls st) = OPENAI_RETRIES default_config + 1
    /\ now w' <= now boot + Z.max 1 (OPENAI_TIMEOUT_MS default_config).
Proof.
  apply (timeout_does_not_cancel default_config overloaded question boot).
  - cbn. lia.
  - cbn. lia.
  - intros k. exists 8000, unavailable. split; reflexivity.
Defined.
End DeadlineFacts.

(** * The conversation under any outcomes *)

Module ConversationFacts.
Import Route Samples.

Lemma splice_head {A} (m : A) (xs : list A) :
  splice 1 2 (m :: xs) = m :: skipn 2 xs.
Proof. reflexivity. Qed.

Lemma push_user_head cfg text m rest :
  exists rest', push_user cfg text (m :: rest) = m :: rest'.
Proof.
  unfold push_user. cbn [app].
  destruct (_ >? _); [rewrite splice_head |]; eexists; reflexivity.
Qed.

Lemma after_request_head cfg text m rest fc r :
  exists rest',
    after_request cfg text {| messages := m :: rest; file_context := fc |} r
    = {| messages := m :: rest'; file_context := fc |}.
Proof.
  unfold after_request. cbn [messages file_context].
  destruct (String.eqb (GPT_MODE cfg) "CHAT"); [| now exists rest].
  destruct (push_user_head cfg text m rest) as [rest' ->].
  destruct r; unfold push_assistant; cbn [app]; eexists; reflexivity.
Qed.

(** The calls a request adds to the log carry the payload of the request. *)
Lemma handler_invoked cfg up text res srv w res' srv' w' :
  handler cfg up text res srv w = Some (res', srv', w') ->
  exists r new,
    srv' = after_request cfg text srv r
    /\ res' = reply_to r res
    /\ invoked w' = invoked w ++ new
    /\ Forall (fun c => exists m, fst c = payload cfg text srv m) new.
Proof.
  intros H.
  destruct (RouteFacts.handler_outcome cfg up text res srv w)
    as (r & w1 & Hw & Hh).
  rewrite Hh in H. inversion H; subst; clear H. exists r.
  destruct (RouteFacts.with_fallback_spec cfg up (payload cfg text srv) w)
    as (r1 & w1 & st1 & E1 & I1 & Hr1).
  destruct r1 as [c | e1].
  - rewrite Hr1 in Hw. inversion Hw; subst.
    eexists. repeat split; [exact I1 |].
    repeat constructor. now eexists.
  - destruct Hr1 as [Hno Hyes].
    destruct (use_fallback cfg).
    + destruct (Hyes eq_refl) as (r2 & w2 & st2 & E2 & I2 & Hf).
      rewrite Hf in Hw. inversion Hw; subst.
      eexists. repeat split; [exact I2 |].
      repeat constructor; now eexists.
    + rewrite (Hno eq_refl) in Hw. inversion Hw; subst.
      eexists. repeat split; [exact I1 |].
      repeat constructor. now eexists.
Qed.

Lemma serve_total cfg up texts : forall srv w,
  exists ress srv' w', serve cfg up texts srv w = Some (ress, srv', w').
Proof.
  induction texts as [| text texts IH]; intros srv w; cbn [serve].
  - now do 3 eexists.
  - destruct (RouteFacts.handler_outcome cfg up text None srv w)
      as (r & w1 & _ & ->).
    destruct (IH (after_request cfg text srv r) w1) as (ress & srv' & w' & ->).
    now do 3 eexists.
Qed.


(** X6.  No run of requests, in either mode and whatever the outcomes,
    removes or changes the exchange at position 0 of [messages] or changes
    [file_context]; every request of the run gets its response. *)
Theorem system_exchange_stays (cfg : config) (up : upstream)
        (texts : list string) (m : exchange) (rest : list exchange)
        (fc : string) (w : world) :
  exists ress rest' w',
    serve cfg up texts {| messages := m :: rest; file_context := fc |} w
    = Some (ress, {| messages := m :: rest'; file_context := fc |}, w')
    /\ List.length ress = List.length texts.
Proof.
  revert rest w.
  induction texts as [| text texts IH]; intros rest w; cbn [serve].
  - now do 3 eexists.
  - destruct (RouteFacts.handler_outcome cfg up text None
                {| messages := m :: rest; file_context := fc |} w)
      as (r & w1 & _ & ->).
    destruct (after_request_head cfg text m rest fc r) as [rest1 ->].
    destruct (IH rest1 w1) as (ress & rest' & w' & -> & Hlen).
    do 3 eexists. split; [reflexivity |]. cbn. lia.
Qed.




(** The bound is reached: with a window of one pair, a failed request
    followed by an answered one leaves four exchanges. *)
Example bound_is_reached :
  conversation_after
    (serve (with_history 1) MoreSamples.recovering ["one"; "two"] initial boot)
  = Some [ {| ex_role := system; content := default_prompt |};
           {| ex_role := user; content := "one" |};
           {| ex_role := user; content := "two" |};
           {| ex_role := assistant; content := "hi" |} ].
Proof. vm_compute. reflexivity. Qed.

(** X8.  In single-shot mode (any [GPT_MODE] other than ["CHAT"]) a run of
    requests leaves [messages] and [file_context] as they were, and every
    payload sent upstream is the two-exchange prompt built from
    [file_context] and the text of one request of the run. *)
Theorem prompt_mode_is_stateless (cfg : config) (up : upstream)
        (texts : list string) (srv : server) (w : world)
        (ress : list response) (srv' : server) (w' : world) :
  GPT_MODE cfg <> "CHAT" ->
  serve cfg up texts srv w = Some (ress, srv', w') ->
  srv' = srv
  /\ exists new,
       invoked w' = invoked w ++ new
       /\ Forall (fun c =>
                    exists text m,
                      In text texts
                      /\ fst c = prompt_request (file_context srv) text m)
                 new.
Proof.
  intros Hmode. apply String.eqb_neq in Hmode.
  revert srv w ress srv' w'.
  induction texts as [| text texts IH]; intros srv w ress srv' w' H;
    cbn [serve] in H.
  - inversion H; subst. split; [reflexivity |]. exists [].
    split; [now rewrite app_nil_r | constructor].
  - destruct (handler cfg up text None srv w) as [[[res srv1] w1] |] eqn:Hh;
      [| discriminate].
    destruct (serve cfg up texts srv1 w1) as [[[ress1 srv2] w2] |] eqn:Hs;
      [| discriminate].
    inversion H; subst; clear H.
    apply handler_invoked in Hh as (r & new1 & -> & _ & I1 & F1).
    unfold after_request in Hs. rewrite Hmode in Hs.
    destruct (IH _ _ _ _ _ Hs) as (-> & new2 & I2 & F2).
    split; [reflexivity |].
    exists (new1 ++ new2). split; [rewrite I2, I1, app_assoc; reflexivity |].
    apply Forall_app. split.
    + eapply Forall_impl; [| exact F1].
      intros c (m & ->). exists text, m. split; [now left |].
      unfold payload. now rewrite Hmode.
    + eapply Forall_impl; [| exact F2].
      intros c (t & m & Hin & ->). exists t, m. split; [now right | reflexivity].
Qed.

Lemma prompt_mode_is_stateless_witness :
  exists ress srv' w',
    serve MoreSamples.prompt_config helpful ["one"; "two"] initial boot
    = Some (ress, srv', w')
    /\ srv' = initial.
Proof.
  destruct (serve MoreSamples.prompt_config helpful ["one"; "two"] initial
                  boot) as [[[ress srv'] w'] |] eqn:E;
    [| vm_compute in E; discriminate].
  exists ress, srv', w'. split; [reflexivity |].
  apply (prompt_mode_is_stateless MoreSamples.prompt_config helpful
           ["one"; "two"] initial boot ress srv' w');
    [discriminate | exact E].
Defined.
End ConversationFacts.

(** * Replies *)

Module ReplyFacts.
Import Route Samples.

Lemma trimForTwitch_length text :
  (String.length (trimForTwitch text) <= 1000)%nat.
Proof.
  unfold trimForTwitch.
  destruct (String.eqb text ""); [cbn; lia |].
  destruct (Nat.leb_spec (String.length text) 1000) as [Hle | Hgt]; [exact Hle |].
  rewrite TrimFacts.substring_length; lia.
Qed.

Lemma trimForTwitch_short text :
  (String.length text <= 1000)%nat -> trimForTwitch text = text.
Proof.
  intros H. unfold trimForTwitch.
  destruct (String.eqb_spec text "") as [-> | _]; [reflexivity |].
  destruct (Nat.leb_spec (String.length text) 1000); [reflexivity | lia].
Qed.

(** X11.  For every text, [trimForTwitch] gives a prefix of it of at most
    1000 units, and trimming twice is trimming once. *)
Theorem trimForTwitch_idempotent (text : string) :
  trimForTwitch (trimForTwitch text) = trimForTwitch text
  /\ (String.length (trimForTwitch text) <= 1000)%nat
  /\ prefix (trimForTwitch text) text = true.
Proof.
  split; [apply trimForTwitch_short, trimForTwitch_length |].
  split; [apply trimForTwitch_length |].
  unfold trimForTwitch.
  destruct (String.eqb_spec text "") as [-> | _]; [reflexivity |].
  destruct (Nat.leb_spec (String.length text) 1000) as [Hle | Hgt].
  - rewrite <- (TrimFacts.substring_all (String.length text) text) at 1 by lia.
    apply TrimFacts.substring_prefix.
  - apply TrimFacts.substring_prefix.
Qed.

(** X9.  A request whose response has not gone out yet is always answered:
    with status 200 and a body of at most 1000 units, or with status 500 or
    503. *)
Theorem every_request_is_answered (cfg : config) (up : upstream)
        (text : string) (srv : server) (w : world) :
  exists r srv' w',
    handler cfg up text None srv w = Some (Some r, srv', w')
    /\ (statusCode r = 200 /\ (String.length (body r) <= 1000)%nat
        \/ statusCode r = 500 \/ statusCode r = 503).
Proof.
  destruct (RouteFacts.handler_outcome cfg up text None srv w)
    as (r & w1 & _ & Hh).
  destruct r as [c | err]; cbn [reply_to on_success on_failure send] in Hh.
  - do 3 eexists. split; [exact Hh |]. left. cbn [statusCode body].
    split; [reflexivity | apply trimForTwitch_length].
  - do 3 eexists. split; [exact Hh |]. right. cbn [statusCode].
    unfold httpStatus. destruct (Js.has_num _ _); [now right | now left].
Qed.

Lemma agent_response_missing c :
  Js.truthy_str (first_content c) = false -> agent_response c = "".
Proof.
  intros H. unfold agent_response, or_default, Js.or_str. now rewrite H.
Qed.

(** X10.  A completion whose first choice has no content, or empty
    content, is answered with status 200 and an empty body; in multi-turn
    mode an assistant exchange with empty content is appended. *)
Theorem missing_content_is_empty_reply (cfg : config) (up : upstream)
        (text : string) (srv : server) (w : world) (c : completion)
        (w1 : world) :
  with_fallback cfg up (payload cfg text srv) w = Some (Resolved c, w1) ->
  (first_content c = None \/ first_content c = Some "") ->
  exists srv',
    handler cfg up text None srv w
    = Some (Some {| statusCode := 200; body := "" |}, srv', w1)
    /\ (GPT_MODE cfg = "CHAT" ->
        messages srv' =
        push_user cfg text (messages srv)
        ++ [ {| ex_role := assistant; content := "" |} ])
    /\ (GPT_MODE cfg <> "CHAT" -> srv' = srv).
Proof.
  intros H Hc.
  assert (Ha : agent_response c = "").
  { apply agent_response_missing. destruct Hc as [-> | ->]; reflexivity. }
  destruct (RouteFacts.handler_outcome cfg up text None srv w)
    as (r & w' & Hw & Hh).
  rewrite H in Hw. inversion Hw; subst r w'; clear Hw.
  cbn [reply_to on_success send] in Hh. rewrite Ha in Hh.
  eexists. split; [exact Hh |].
  unfold after_request. split.
  - intros ->. cbn. now rewrite Ha.
  - intros Hn. apply String.eqb_neq in Hn. now rewrite Hn.
Qed.

Lemma missing_content_is_empty_reply_witness :
  exists srv' w1,
    handler default_config MoreSamples.silent "Hello?" None initial boot
    = Some (Some {| statusCode := 200; body := "" |}, srv', w1).
Proof.
  destruct (with_fallback default_config MoreSamples.silent
              (payload default_config "Hello?" initial) boot)
    as [[r w1] |] eqn:E; [| vm_compute in E; discriminate].
  assert (Hr : r = Resolved {| first_content := None |}).
  { vm_compute in E. now inversion E. }
  subst r.
  destruct (missing_content_is_empty_reply default_config MoreSamples.silent
              "Hello?" initial boot {| first_content := None |} w1 E)
    as (srv' & H & _); [now left |].
  now exists srv', w1.
Defined.
End ReplyFacts.

Module ServerFacts.
Import Route Samples Server.

(** X12.  Behind the response-timeout middleware, with
    [SERVER_TIMEOUT_MS] from 1 to 2147483647, the client gets the reply of
    the route when the route comes to reply before [SERVER_TIMEOUT_MS] have
    passed, and the 504 of the middleware when it comes later; either way
    the state afterwards is the one the route leaves, so a request answered
    with 504 still appends to the conversation.  With [SERVER_TIMEOUT_MS]
    at 0 the timeout is off and the reply is always the route's; with a
    negative value the middleware throws and the route does not run. *)
Theorem response_deadline (cfg : config) (SERVER_TIMEOUT_MS : Z)
        (tie : Timeout.winner) (up : upstream) (text : string) (srv : server)
        (w : world) :
  exists r w1,
    with_fallback cfg up (payload cfg text srv) w = Some (r, w1)
    /\ (1 <= SERVER_TIMEOUT_MS <= 2147483647 ->
        (exists res,
            request cfg SERVER_TIMEOUT_MS tie up text srv w
            = Some (Routed res (after_request cfg text srv r) w1)
            /\ (res = reply_to r None \/ res = Some gateway_timeout))
        /\ (now w1 < now w + SERVER_TIMEOUT_MS ->
            request cfg SERVER_TIMEOUT_MS tie up text srv w
            = Some (Routed (reply_to r None) (after_request cfg text srv r) w1))
        /\ (now w + SERVER_TIMEOUT_MS < now w1 ->
            request cfg SERVER_TIMEOUT_MS tie up text srv w
            = Some (Routed (Some gateway_timeout)
                           (after_request cfg text srv r) w1)))
    /\ (SERVER_TIMEOUT_MS = 0 ->
        request cfg SERVER_TIMEOUT_MS tie up text srv w
        = Some (Routed (reply_to r None) (after_request cfg text srv r) w1))
    /\ (SERVER_TIMEOUT_MS < 0 ->
        request cfg SERVER_TIMEOUT_MS tie up text srv w
        = Some MiddlewareThrows).
Proof.
  destruct (RouteFacts.with_fallback_total cfg up (payload cfg text srv) w)
    as (r & w1 & Hw).
  exists r, w1. split; [exact Hw |].
  assert (Hrun : forall res0,
             handler cfg up text res0 srv w
             = Some (reply_to r res0, after_request cfg text srv r, w1)).
  { intros res0.
    destruct (RouteFacts.handler_outcome cfg up text res0 srv w)
      as (r' & w' & Hw' & Hh).
    rewrite Hw in Hw'. inversion Hw'; subst r' w'. exact Hh. }
  assert (Hsent : reply_to r (Some gateway_timeout) = Some gateway_timeout)
    by (destruct r; reflexivity).
  split; [| split].
  - intros [Hlo Hhi].
    assert (Harm : setTimeout SERVER_TIMEOUT_MS = IdleAfter SERVER_TIMEOUT_MS).
    { unfold setTimeout, Timeout.TIMEOUT_MAX.
      destruct (Z.ltb_spec SERVER_TIMEOUT_MS 0); [lia |].
      destruct (Z.eqb_spec SERVER_TIMEOUT_MS 0); [lia |].
      now rewrite Z.min_l by lia. }
    unfold request, before_reply. rewrite Harm, Hw, Hrun.
    unfold Timeout.race.
    destruct (Z.ltb_spec (now w1) (now w + SERVER_TIMEOUT_MS)) as [Hlt | Hge].
    + split; [eexists; split; [reflexivity | now left] |].
      split; [reflexivity | lia].
    + destruct (Z.ltb_spec (now w + SERVER_TIMEOUT_MS) (now w1))
        as [Hgt | Hle].
      * rewrite Hsent.
        split; [eexists; split; [reflexivity | now right] |].
        split; [lia | reflexivity].
      * destruct tie; rewrite ?Hsent.
        -- split; [eexists; split; [reflexivity | now left] |]. split; lia.
        -- split; [eexists; split; [reflexivity | now right] |]. split; lia.
  - intros ->. unfold request, before_reply. cbn [setTimeout Z.ltb Z.eqb].
    cbn. now rewrite Hw, Hrun.
  - intros Hneg. unfold request, setTimeout.
    destruct (Z.ltb_spec SERVER_TIMEOUT_MS 0); [reflexivity | lia].
Qed.

Lemma response_deadline_witness :
  exists w1,
    request default_config 25000 Timeout.TimerWins overloaded "Hello?"
            initial boot
    = Some (Routed (Some gateway_timeout)
              {| messages := [ {| ex_role := system; content := default_prompt |};
                               {| ex_role := user; content := "Hello?" |} ];
                 file_context := default_prompt |}
              w1)
    /\ now w1 = 40000.
Proof.
  destruct (response_deadline default_config 25000 Timeout.TimerWins
                              overloaded "Hello?" initial boot)
    as (r & w1 & Hw & Harmed & _).
  destruct Harmed as (_ & _ & Hlate); [lia |].
  vm_compute in Hw. inversion Hw; subst r w1; clear Hw.
  eexists. split; [apply Hlate; reflexivity | reflexivity].
Defined.
End ServerFacts.

(** * Start-up *)

Module BootFacts.
Import Route Boot.

Lemma env_or_nonempty v d : d <> "" -> env_or v d <> "".
Proof.
  intros Hd. unfold env_or, or_default, Js.or_str, Js.truthy_str.
  destruct v as [s |]; [| exact Hd].
  destruct (String.eqb_spec s "") as [-> | Hs]; cbn [negb]; assumption.
Qed.

Lemma env_or_unset d : env_or None d = d /\ env_or (Some "") d = d.
Proof. split; reflexivity. Qed.



Lemma substring_split n : forall m s,
  (String.length s <= n + m)%nat ->
  (substring 0 n s ++ substring n m s)%string = s.
Proof.
  induction n as [| n IH]; intros m s H.
  - replace (substring 0 0 s) with EmptyString by (destruct s; reflexivity).
    cbn [String.append]. apply TrimFacts.substring_all. lia.
  - destruct s as [| c s]; [reflexivity |].
    cbn [substring String.append]. f_equal. apply IH. cbn in H. lia.
Qed.

Lemma substring_length_min n : forall m s,
  String.length (substring n m s) = Nat.min m (String.length s - n).
Proof.
  induction n as [| n IH]; intros m s.
  - rewrite Nat.sub_0_r. revert s.
    induction m as [| m IHm]; intros [| c s]; cbn; try reflexivity.
    now rewrite IHm.
  - destruct s as [| c s]; cbn [substring String.length Nat.sub].
    + now rewrite Nat.min_0_r.
    + apply IH.
Qed.

(** X14.  The key tail of the boot line is the end of the key: its last six
    units, or the whole key when the key has at most six units; the note
    about it is empty exactly when the key is unset or empty. *)
Theorem keyTail_is_a_suffix (key : option string) :
  let k := env_or key "" in
  (exists hidden,
      k = (hidden ++ keyTail key)%string
      /\ String.length hidden = (String.length k - 6)%nat)
  /\ String.length (keyTail key) = Nat.min 6 (String.length k)
  /\ ((String.length k <= 6)%nat -> keyTail key = k)
  /\ (key_note key = "" <-> k = "").
Proof.
  cbn zeta. unfold keyTail, slice_last. set (k := env_or key "").
  assert (Hlen : String.length (substring (String.length k - 6) 6 k)
                 = Nat.min 6 (String.length k)).
  { rewrite substring_length_min.
    destruct (Nat.le_gt_cases (String.length k) 6).
    - replace (String.length k - (String.length k - 6))%nat
        with (String.length k) by lia.
      reflexivity.
    - replace (String.length k - (String.length k - 6))%nat with 6%nat by lia.
      rewrite Nat.min_id, Nat.min_l by lia. reflexivity. }
  split; [| split; [exact Hlen | split]].
  - exists (substring 0 (String.length k - 6) k). split.
    + symmetry. apply substring_split. lia.
    + apply TrimFacts.substring_length. lia.
  - intros Hshort.
    replace (String.length k - 6)%nat with 0%nat by lia.
    now apply TrimFacts.substring_all.
  - unfold key_note, keyTail, slice_last. fold k.
    destruct (String.eqb_spec (substring (String.length k - 6) 6 k) "")
      as [E | NE].
    + split; [intros _ | reflexivity].
      rewrite E in Hlen. cbn [String.length] in Hlen.
      destruct k; [reflexivity |]. cbn [String.length] in Hlen.
      destruct (Nat.le_gt_cases 6 (S (String.length k))).
      * rewrite Nat.min_l in Hlen by lia. lia.
      * rewrite Nat.min_r in Hlen by lia. lia.
    + split; [discriminate |]. intros Hk. rewrite Hk in NE. now elim NE.
Qed.

(** X15.  Loading the context file.  In multi-turn mode a file that is read
    replaces the content of the exchange at position 0 and nothing else: its
    role, the other exchanges and [file_context] stay.  In single-shot mode
    it replaces [file_context] and nothing else: [messages] stays.  A file
    that cannot be read changes nothing in either mode.  On the state the
    load commutes with a request, so a file that arrives after a request has
    been handled gives the same state as one that arrived before. *)
Theorem context_load_commutes (cfg : config) (file : option string)
        (text : string) (m : exchange) (rest : list exchange) (fc : string)
        (r : outcome completion) :
  let srv := {| messages := m :: rest; file_context := fc |} in
  loadFileContext cfg file (after_request cfg text srv r)
  = after_request cfg text (loadFileContext cfg file srv) r
  /\ loadFileContext cfg None srv = srv
  /\ (forall data,
        GPT_MODE cfg = "CHAT" ->
        loadFileContext cfg (Some data) srv
        = {| messages := {| ex_role := ex_role m; content := data |} :: rest;
             file_context := fc |})
  /\ (forall data,
        GPT_MODE cfg <> "CHAT" ->
        loadFileContext cfg (Some data) srv
        = {| messages := m :: rest; file_context := data |}).
Proof.
  cbn zeta. split; [| split; [| split]].
  - unfold loadFileContext, after_request.
    destruct (String.eqb (GPT_MODE cfg) "CHAT").
    + unfold loadFileContextForChatMode. cbn [messages file_context].
      destruct file as [data |]; cbn [messages file_context];
        [| reflexivity].
      assert (Hp : exists rest',
                 forall m0 : exchange,
                   push_user cfg text (m0 :: rest) = m0 :: rest').
      { exists (if Z.of_nat
                        (S (List.length
                              (rest ++ [ {| ex_role := user; content := text |} ])))
                      >? HISTORY_LENGTH cfg * 2 + 1
                 then skipn 2 (rest ++ [ {| ex_role := user; content := text |} ])
                 else rest ++ [ {| ex_role := user; content := text |} ]).
        intros m0. unfold push_user. cbn [app List.length].
        destruct (_ >? _); reflexivity. }
      destruct Hp as (rest' & E). rewrite !E.
      destruct r; reflexivity.
    + unfold loadFileContextForPromptMode.
      destruct file as [data |]; reflexivity.
  - unfold loadFileContext.
    destruct (String.eqb (GPT_MODE cfg) "CHAT"); reflexivity.
  - intros data Hmode. unfold loadFileContext. rewrite Hmode. reflexivity.
  - intros data Hmode. apply String.eqb_neq in Hmode.
    unfold loadFileContext. now rewrite Hmode.
Qed.
End BootFacts.

(** * The route before the wrappers *)

Module LegacyFacts.
Import Route.

Lemma agent_response_same c : Legacy.agent_response c = agent_response c.
Proof.
  unfold Legacy.agent_response, agent_response, or_default, Js.or_str,
    Js.truthy_str.
  destruct (first_content c) as [s |]; [| reflexivity].
  destruct (String.eqb_spec s "") as [-> | _]; reflexivity.
Qed.


Lemma legacy_state cfg answer nested text srv d r :
  answer (payload cfg text srv (OPENAI_MODEL cfg)) = Settles d r ->
  snd (Legacy.handler cfg answer nested text srv) = after_request cfg text srv r.
Proof.
  unfold Legacy.handler, payload, after_request.
  destruct (String.eqb (GPT_MODE cfg) "CHAT"); intros ->;
    destruct r; cbn [snd]; rewrite ?agent_response_same;
    try reflexivity; now destruct srv.
Qed.



(** X17.  The earlier route answers every failed call with status 500 and
    the body "Something went wrong with the AI call: " followed by a detail
    that is never empty: the nested error message when there is a non-empty
    one, otherwise the error message when there is a non-empty one,
    otherwise "Unknown error"; it leaves the state the present route leaves
    after a failure. *)
Theorem legacy_failure_is_500 (cfg : config)
        (answer : request -> settle completion)
        (nested : error -> option string) (text : string) (srv : server)
        (d : Z) (err : error) :
  answer (payload cfg text srv (OPENAI_MODEL cfg)) = Settles d (Rejected err) ->
  exists detail,
    Legacy.handler cfg answer nested text srv
    = (Some {| statusCode := 500;
               body := ("Something went wrong with the AI call: "
                          ++ detail)%string |},
       after_request cfg text srv (Rejected err))
    /\ detail <> ""
    /\ (forall n, nested err = Some n -> n <> "" -> detail = n)
    /\ (nested err = None \/ nested err = Some "" ->
        forall msg, err_message err = Some msg -> msg <> "" -> detail = msg)
    /\ (nested err = None \/ nested err = Some "" ->
        err_message err = None \/ err_message err = Some "" ->
        detail = "Unknown error").
Proof.
  intros Hans.
  pose proof (legacy_state cfg answer nested text srv d _ Hans) as Hs.
  exists (Legacy.detail_of (nested err) err).
  split; [| split; [| split; [| split]]].
  - destruct (Legacy.handler cfg answer nested text srv) as [rep st] eqn:E.
    cbn [snd] in Hs. subst st. f_equal.
    unfold Legacy.handler, payload in *.
    destruct (String.eqb (GPT_MODE cfg) "CHAT"); rewrite Hans in E;
      now inversion E.
  - apply BootFacts.env_or_nonempty. discriminate.
  - intros n Hn Hne. unfold Legacy.detail_of. rewrite Hn.
    apply String.eqb_neq in Hne.
    unfold or_default, Js.or_str, Js.truthy_str.
    repeat (rewrite ?Hne; cbn [negb]). reflexivity.
  - intros Hn msg Hm Hne. unfold Legacy.detail_of. rewrite Hm.
    apply String.eqb_neq in Hne.
    unfold or_default, Js.or_str, Js.truthy_str.
    destruct Hn as [-> | ->]; cbn [negb String.eqb];
      repeat (rewrite ?Hne; cbn [negb]); reflexivity.
  - intros Hn Hm. unfold Legacy.detail_of.
    destruct Hn as [-> | ->]; destruct Hm as [-> | ->]; reflexivity.
Qed.

Lemma legacy_failure_is_500_witness :
  exists detail,
    Legacy.handler default_config MoreSamples.refused MoreSamples.no_nested
                   "Hello?" initial
    = (Some {| statusCode := 500;
               body := ("Something went wrong with the AI call: "
                          ++ detail)%string |},
       after_request default_config "Hello?" initial
                     (Rejected Samples.unauthorized))
    /\ detail <> "".
Proof.
  destruct (legacy_failure_is_500 default_config MoreSamples.refused
              MoreSamples.no_nested "Hello?" initial 100 Samples.unauthorized
              eq_refl) as (detail & H & Hne & _).
  exists detail. split; [exact H | exact Hne].
Defined.
End LegacyFacts.

(** * Head room below the client timeout *)

Module HeadroomFacts.
Import Retry RetryLog Timeout Route Samples.

Lemma time_spent_upper {A} (fn : operation A) (D : Z) n :
  0 <= D ->
  (forall k d r, fn k = Settles d r -> d <= D) ->
  time_spent fn n <= Z.of_nat n * D.
Proof.
  intros HD Hd. induction n as [| n IH]; cbn [time_spent]; [lia |].
  destruct (fn n) as [d r |] eqn:F.
  - specialize (Hd n d r F). lia.
  - lia.
Qed.

(** Delays of at most [400 * 2^k + 200] add up to at most
    [400 * (2^n - 1) + 200 * n]. *)
Lemma time_slept_upper evs :
  (forall k ev, nth_error evs k = Some ev ->
                ev_delay ev <= 400 * 2 ^ Z.of_nat k + 200) ->
  time_slept evs
  <= 400 * (2 ^ Z.of_nat (List.length evs) - 1)
     + 200 * Z.of_nat (List.length evs).
Proof.
  induction evs as [| ev evs IH] using rev_ind; intros H; [cbn; lia |].
  rewrite ClockFacts.time_slept_snoc, length_app. cbn [List.length].
  assert (IH' : time_slept evs
                <= 400 * (2 ^ Z.of_nat (List.length evs) - 1)
                   + 200 * Z.of_nat (List.length evs)).
  { apply IH. intros k e Hk. apply H.
    rewrite nth_error_app1; [exact Hk |].
    apply nth_error_Some. congruence. }
  assert (Hlast : ev_delay ev <= 400 * 2 ^ Z.of_nat (List.length evs) + 200).
  { apply H. rewrite nth_error_app2 by lia. now rewrite Nat.sub_diag. }
  replace (Z.of_nat (List.length evs + 1))
    with (Z.succ (Z.of_nat (List.length evs))) by lia.
  rewrite Z.pow_succ_r by lia. lia.
Qed.

(** X18.  With a budget of [R = OPENAI_RETRIES >= 0] retries, invocations
    that each settle within [D] milliseconds and draws in [0, 1), a retry
    sequence takes at most [(R + 1) * D + 400 * (2^R - 1) + 200 * R]
    milliseconds; when that is below [OPENAI_TIMEOUT_MS], itself at most
    2147483647, the client timeout never fires and [callOpenAIChat] returns
    what the retry sequence settled with, at the time it settled. *)
Theorem fast_attempts_beat_the_timeout (cfg : config) (up : upstream)
        (req : request) (w : world) (D : Z) :
  0 <= OPENAI_RETRIES cfg ->
  (forall k, exists d r,
      create up (call_index w) req k = Settles d r /\ 0 <= d <= D) ->
  (forall i, (0 <= random up (call_index w) i)%Q
             /\ (random up (call_index w) i < 1)%Q) ->
  (OPENAI_RETRIES cfg + 1) * D
  + 400 * (2 ^ OPENAI_RETRIES cfg - 1) + 200 * OPENAI_RETRIES cfg
  < OPENAI_TIMEOUT_MS cfg ->
  OPENAI_TIMEOUT_MS cfg <= 2147483647 ->
  exists t r st w',
    retry_sequence cfg up req w = Some (Settled t r, st)
    /\ callOpenAIChat cfg up req w = Some (r, w')
    /\ now w' = t
    /\ t < now w + OPENAI_TIMEOUT_MS cfg.
Proof.
  intros HR Hd Hr Hroom Hmax.
  destruct (CallFacts.retry_sequence_total cfg up req w) as (p & st & Hseq).
  pose proof Hseq as Hraw. unfold retry_sequence in Hraw.
  pose proof (ClockFacts.withRetry_clock _ _ _ _ _ _ Hraw) as Hc.
  destruct (RetryLogFacts.onRetry_log_aux _ _ _ _ _ _ Hraw) as [Hcalls Hev].
  assert (HD : 0 <= D) by (destruct (Hd 0%nat) as (d & r & _ & H); lia).
  assert (Hbound : Z.of_nat (calls st) <= OPENAI_RETRIES cfg + 1
                   /\ exists t r, p = Settled t r).
  { pose proof Hraw as H. unfold withRetry in H.
    apply RetryFacts.loop_spec in H as (H1 & H2 & _ & H4 & _).
    unfold last_call_settles, enough in *.
    cbn [init calls attempt call_options retries] in *.
    split; [lia |].
    destruct (Hd (pred (calls st))) as (d & r & F & _). rewrite F in H4.
    destruct r as [v | e]; [| destruct H4 as [H4 _]];
      do 2 eexists; exact H4. }
  destruct Hbound as (Hb & t & r & ->).
  pose proof (ClockFacts.withRetry_settled_at _ _ _ _ _ _ _ Hraw) as Ht.
  assert (Hspent : time_spent (create up (call_index w) req) (calls st)
                   <= (OPENAI_RETRIES cfg + 1) * D).
  { eapply Z.le_trans.
    - apply (time_spent_upper _ D); [exact HD |].
      intros k d r' F. destruct (Hd k) as (d' & r'' & F' & Hle).
      rewrite F in F'. inversion F'; subst. lia.
    - apply Z.mul_le_mono_nonneg_r; lia. }
  assert (Hn : Z.of_nat (List.length (events st)) <= OPENAI_RETRIES cfg) by lia.
  assert (Hslept : time_slept (events st)
                   <= 400 * (2 ^ OPENAI_RETRIES cfg - 1)
                      + 200 * OPENAI_RETRIES cfg).
  { eapply Z.le_trans.
    - apply time_slept_upper. intros k ev Hk.
      destruct (Hev k ev Hk) as (d & e & _ & ->). cbn [ev_delay].
      unfold delay_of.
      destruct (Hr k) as [H0 H1].
      pose proof (RetryFacts.Math_round_jitter
                    (backoff (call_options cfg) (S k))
                    (random up (call_index w) k * 200)%Q) as Hj.
      assert (Hup : Js.Math_round
                      (inject_Z (backoff (call_options cfg) (S k))
                       + random up (call_index w) k * 200)%Q
                    <= backoff (call_options cfg) (S k) + 200)
        by (apply Hj; lra).
      unfold backoff, Js.Math_pow in *.
      cbn [call_options baseDelay factor] in *.
      replace (Z.of_nat (S k) - 1) with (Z.of_nat k) in * by lia. exact Hup.
    - assert (Hp : 2 ^ Z.of_nat (List.length (events st))
                   <= 2 ^ OPENAI_RETRIES cfg)
        by (apply Z.pow_le_mono_r; lia).
      lia. }
  assert (Hearly : t < now w + OPENAI_TIMEOUT_MS cfg) by lia.
  assert (Hpow : 0 < 2 ^ OPENAI_RETRIES cfg) by (apply Z.pow_pos_nonneg; lia).
  assert (Hdelay : timer_delay (OPENAI_TIMEOUT_MS cfg) = OPENAI_TIMEOUT_MS cfg).
  { apply TimeoutFacts.timer_delay_in_range. unfold TIMEOUT_MAX. nia. }
  assert (Hearly' : t < now w + timer_delay (OPENAI_TIMEOUT_MS cfg))
    by (rewrite Hdelay; exact Hearly).
  exists t, r, st.
  unfold callOpenAIChat. rewrite Hseq.
  pose proof (TimeoutFacts.withTimeout_early
                (Settled t r) (OPENAI_TIMEOUT_MS cfg) (now w)
                (tie up (call_index w)) (timer_table w) t r eq_refl Hearly')
    as He.
  destruct (withTimeout _ _ _ _ _) as [[t' o'] tm]. cbn [fst] in He.
  inversion He; subst t' o'.
  eexists. split; [reflexivity |]. split; [reflexivity |].
  split; [reflexivity | exact Hearly].
Qed.

Lemma fast_attempts_beat_the_timeout_witness :
  exists t r st w',
    retry_sequence default_config struggling question boot
    = Some (Settled t r, st)
    /\ callOpenAIChat default_config struggling question boot = Some (r, w')
    /\ now w' = t
    /\ t < now boot + OPENAI_TIMEOUT_MS default_config.
Proof.
  apply (fast_attempts_beat_the_timeout default_config struggling question
                                        boot 100).
  - cbn. lia.
  - intros k. do 2 eexists. split; [reflexivity | lia].
  - intros i. split; [vm_compute; discriminate | reflexivity].
  - reflexivity.
  - cbn. lia.
Defined.
End HeadroomFacts.
